(** * AirGradient display-control firmware: a shallow embedding

    The sketch [arduino/airgraident_displaycontrol.ino] runs on an ESP8266
    (ILP32: [int], [long], [unsigned int] and [unsigned long] are 32 bits
    wide, [float] is IEEE binary32, [double] is IEEE binary64).  Its global
    variables become the fields of a [State] record that every operation
    receives and returns; what the sketch sends to the OLED becomes a list
    of [Draw] actions, what it answers over HTTP a [Response].

    Integers are [Z] with the wrap-around of the C type written where the
    source computes in that type.  Floating point values are [spec_float]
    of the Standard Library, instantiated at binary32 and binary64, so the
    AQI conversion is evaluated bit for bit. *)

From Stdlib Require Import ZArith Lia List String Ascii Bool.
From Stdlib Require Import QArith Qround.
From Stdlib Require Import DecimalString.
From Stdlib Require Import Floats.SpecFloat.
From stdpp Require Import base list.

Local Open Scope Z_scope.

(** ** Machine integers *)

Module C.

(** [unsigned int] and [unsigned long]. *)
Definition u32 (z : Z) : Z := z mod 2 ^ 32.

(** [int] and [long]: conversion from a wider or unsigned value keeps
    the low 32 bits (two's complement). *)
Definition i32 (z : Z) : Z := (z + 2 ^ 31) mod 2 ^ 32 - 2 ^ 31.

(** [uint16_t]. *)
Definition u16 (z : Z) : Z := z mod 2 ^ 16.

Definition u32_add (a b : Z) : Z := u32 (a + b).
Definition u32_sub (a b : Z) : Z := u32 (a - b).
(** Unary minus on an [unsigned long]. *)
Definition u32_neg (a : Z) : Z := u32 (- a).

(** [a % b] on [int]: the remainder has the sign of [a]. *)
Definition rem (a b : Z) : Z := Z.rem a b.

(** [for (int i = start; ...; i++) body], run [n] times. *)
Fixpoint for_upto {S : Type} (n : nat) (i : Z) (body : Z -> S -> S) (s : S) : S :=
  match n with
  | O => s
  | Datatypes.S n' => for_upto n' (i + 1) body (body i s)
  end.

End C.

(** ** IEEE floating point *)

(** [double]: the type of the literals [350.5], [12.1], ... of the source. *)
Module F64.
Definition prec : Z := 53.
Definition emax : Z := 1024.
Definition of_Z (z : Z) : spec_float := binary_normalize prec emax z 0 false.
Definition ltb : spec_float -> spec_float -> bool := SFltb.
(** The literal with decimal value [n / d], correctly rounded. *)
Definition lit (n d : Z) : spec_float := SFdiv prec emax (of_Z n) (of_Z d).
End F64.

(** [float]. *)
Module F32.
Definition prec : Z := 24.
Definition emax : Z := 128.
Definition of_Z (z : Z) : spec_float := binary_normalize prec emax z 0 false.
(** A [double] argument passed to a [float] parameter. *)
Definition of_double (d : spec_float) : spec_float :=
  match d with
  | S754_finite s m e => binary_round prec emax s m e
  | other => other
  end.
Definition add : spec_float -> spec_float -> spec_float := SFadd prec emax.
Definition sub : spec_float -> spec_float -> spec_float := SFsub prec emax.
Definition mul : spec_float -> spec_float -> spec_float := SFmul prec emax.
Definition div : spec_float -> spec_float -> spec_float := SFdiv prec emax.
Definition leb : spec_float -> spec_float -> bool := SFleb.

(** [int(x)]: truncation towards zero.  The conversion of an infinity
    or a NaN is undefined in C; it is [0] here and no caller reaches it. *)
Definition to_int (x : spec_float) : Z :=
  match x with
  | S754_finite s m e =>
      let a := if 0 <=? e then Z.shiftl (Zpos m) e else Z.shiftr (Zpos m) (- e) in
      if s then - a else a
  | _ => 0
  end.

(** [round(x)]: the nearest integer, halves away from zero (both the
    Arduino macro and [std::round] agree on it). *)
Definition round (x : spec_float) : Z :=
  match x with
  | S754_finite s m e =>
      let a :=
        if 0 <=? e then Z.shiftl (Zpos m) e
        else
          let q := Z.shiftr (Zpos m) (- e) in
          let r := Zpos m - Z.shiftl q (- e) in
          if 2 ^ (- e) <=? 2 * r then q + 1 else q in
      if s then - a else a
  | _ => 0
  end.
End F32.

(** ** AQI conversion *)

(** [int calcAQI(int Cp, int Ih, int Il, float BPh, float BPl)] *)
Definition calcAQI (Cp Ih Il : Z) (BPh BPl : spec_float) : Z :=
  let a := F32.of_Z (Ih - Il) in
  let b := F32.sub BPh BPl in
  let c := F32.sub (F32.of_Z Cp) BPl in
  F32.to_int
    (F32.add (F32.mul (F32.of_Z (F32.round (F32.div a b))) c) (F32.of_Z Il)).

(** A decimal literal of the source handed to a [float] parameter. *)
Definition flit (n d : Z) : spec_float := F32.of_double (F64.lit n d).

(** [pm > lit] with [pm] an [int] and [lit] a [double] literal. *)
Definition int_gt_lit (pm : Z) (n d : Z) : bool :=
  F64.ltb (F64.lit n d) (F64.of_Z pm).

(** [int PM_TO_AQI_US(int pm)] *)
Definition PM_TO_AQI_US (pm : Z) : Z :=
  if pm <? 0 then pm
  else if pm >? 1000 then 500
  else if int_gt_lit pm 3505 10 then calcAQI pm 500 401 (flit 5004 10) (flit 3505 10)
  else if int_gt_lit pm 2505 10 then calcAQI pm 400 301 (flit 3504 10) (flit 2505 10)
  else if int_gt_lit pm 1505 10 then calcAQI pm 300 201 (flit 2504 10) (flit 1505 10)
  else if int_gt_lit pm 555 10 then calcAQI pm 200 151 (flit 1504 10) (flit 555 10)
  else if int_gt_lit pm 355 10 then calcAQI pm 150 101 (flit 554 10) (flit 355 10)
  else if int_gt_lit pm 121 10 then calcAQI pm 100 51 (flit 354 10) (flit 121 10)
  else calcAQI pm 50 0 (F32.of_Z 12) (F32.of_Z 0).

(** ** Configuration and global state *)

Definition OLED_WIDTH : Z := 128.
Definition OLED_HEIGHT : Z := 64.
Definition DISPLAY_IMG_BYTE_LEN : Z := 1024.
Definition MAX_DISPLAY_IMG : Z := 20.

(** [const int customDisplayMaxAge = 60 * 60 * 1000;] *)
Definition customDisplayMaxAge : Z := 60 * 60 * 1000.

Definition tvocInterval : Z := 1000.
Definition co2Interval : Z := 5000.
Definition pm25Interval : Z := 5000.
Definition tempHumInterval : Z := 2500.

(** The constants of the sketch's "Config" block that the handlers read. *)
Record Config := {
  deviceId : string;
  hasPM : bool;
  hasCO2 : bool;
  hasSHT : bool;
  hasSGP41 : bool;
  port : Z
}.

(** The values the repository ships. *)
Definition source_config : Config :=
  {| deviceId := EmptyString; hasPM := true; hasCO2 := true; hasSHT := true;
     hasSGP41 := true; port := 9926 |}.

(** [struct display_image] *)
Record display_image := {
  display : list Byte.byte;
  active : bool;
  last_updated : Z
}.

(** The sensor globals. *)
Record Sensors := {
  conditioning_s : Z;
  previousTVOC : Z; TVOC : Z; NOX : Z;
  previousCo2 : Z; Co2 : Z;
  previousPm25 : Z; pm25 : Z;
  previousTempHum : Z; tempc : spec_float; tempf : spec_float; hum : Z
}.

(** The fields set by an HTTP client. *)
Record Custom := {
  custom_watt : string;
  custom_wattavg : string;
  custom_water : string;
  custom_watertoday : string;
  custom_garage : string;
  custom_garagetime : string
}.

Record State := {
  currentMillis : Z;
  display_last_set : Z;
  oledInterval : Z;
  previousOled : Z;
  sensors : Sensors;
  custom : Custom;
  dimg : list display_image;
  displayActive : Z;
  displayCycle : Z
}.

Definition set_currentMillis (v : Z) (s : State) : State :=
  {| currentMillis := v; display_last_set := display_last_set s;
     oledInterval := oledInterval s; previousOled := previousOled s;
     sensors := sensors s; custom := custom s; dimg := dimg s;
     displayActive := displayActive s; displayCycle := displayCycle s |}.

Definition set_display_last_set (v : Z) (s : State) : State :=
  {| currentMillis := currentMillis s; display_last_set := v;
     oledInterval := oledInterval s; previousOled := previousOled s;
     sensors := sensors s; custom := custom s; dimg := dimg s;
     displayActive := displayActive s; displayCycle := displayCycle s |}.

Definition set_oledInterval (v : Z) (s : State) : State :=
  {| currentMillis := currentMillis s; display_last_set := display_last_set s;
     oledInterval := v; previousOled := previousOled s;
     sensors := sensors s; custom := custom s; dimg := dimg s;
     displayActive := displayActive s; displayCycle := displayCycle s |}.

Definition set_previousOled (v : Z) (s : State) : State :=
  {| currentMillis := currentMillis s; display_last_set := display_last_set s;
     oledInterval := oledInterval s; previousOled := v;
     sensors := sensors s; custom := custom s; dimg := dimg s;
     displayActive := displayActive s; displayCycle := displayCycle s |}.

Definition set_sensors (v : Sensors) (s : State) : State :=
  {| currentMillis := currentMillis s; display_last_set := display_last_set s;
     oledInterval := oledInterval s; previousOled := previousOled s;
     sensors := v; custom := custom s; dimg := dimg s;
     displayActive := displayActive s; displayCycle := displayCycle s |}.

Definition set_custom (v : Custom) (s : State) : State :=
  {| currentMillis := currentMillis s; display_last_set := display_last_set s;
     oledInterval := oledInterval s; previousOled := previousOled s;
     sensors := sensors s; custom := v; dimg := dimg s;
     displayActive := displayActive s; displayCycle := displayCycle s |}.

Definition set_dimg (v : list display_image) (s : State) : State :=
  {| currentMillis := currentMillis s; display_last_set := display_last_set s;
     oledInterval := oledInterval s; previousOled := previousOled s;
     sensors := sensors s; custom := custom s; dimg := v;
     displayActive := displayActive s; displayCycle := displayCycle s |}.

Definition set_displayActive (v : Z) (s : State) : State :=
  {| currentMillis := currentMillis s; display_last_set := display_last_set s;
     oledInterval := oledInterval s; previousOled := previousOled s;
     sensors := sensors s; custom := custom s; dimg := dimg s;
     displayActive := v; displayCycle := displayCycle s |}.

Definition set_displayCycle (v : Z) (s : State) : State :=
  {| currentMillis := currentMillis s; display_last_set := display_last_set s;
     oledInterval := oledInterval s; previousOled := previousOled s;
     sensors := sensors s; custom := custom s; dimg := dimg s;
     displayActive := displayActive s; displayCycle := v |}.

(** A zero-initialised [struct display_image]. *)
Definition zero_image : display_image :=
  {| display := repeat Byte.x00 (Z.to_nat DISPLAY_IMG_BYTE_LEN);
     active := false; last_updated := 0 |}.

(** The globals as their initialisers leave them. *)
Definition init_sensors : Sensors :=
  {| conditioning_s := 10;
     previousTVOC := 0; TVOC := 0; NOX := 0;
     previousCo2 := 0; Co2 := 0;
     previousPm25 := 0; pm25 := 0;
     previousTempHum := 0; tempc := F32.of_Z 0; tempf := F32.of_Z 0; hum := 0 |}.

Definition init_custom : Custom :=
  {| custom_watt := EmptyString; custom_wattavg := EmptyString;
     custom_water := EmptyString; custom_watertoday := EmptyString;
     custom_garage := EmptyString; custom_garagetime := EmptyString |}.

Definition init_state : State :=
  {| currentMillis := 0; display_last_set := 0; oledInterval := 5000;
     previousOled := 0; sensors := init_sensors; custom := init_custom;
     dimg := repeat zero_image (Z.to_nat MAX_DISPLAY_IMG);
     displayActive := 0; displayCycle := 0 |}.

(** [dimg[i]].  An index outside the array is undefined behaviour in C;
    the model reads a zero image there. *)
Definition dimg_at (d : list display_image) (i : Z) : display_image :=
  default zero_image (d !! Z.to_nat i).

(** ** The display *)

(** One full redraw of the OLED: which of the three screens was sent. *)
Inductive Draw :=
| drawScreen1
| drawScreen2
| drawCustomScreen (index : Z).

(** The test of the slot loop in [updateOLED]:
    [dimg[i].active && (currentMillis - dimg[i].last_updated < customDisplayMaxAge)],
    the subtraction and the comparison in [unsigned long]. *)
Definition slot_shown (now : Z) (d : list display_image) (i : Z) : bool :=
  active (dimg_at d i)
  && (C.u32_sub now (C.u32 (last_updated (dimg_at d i))) <? C.u32 customDisplayMaxAge).

(** The [for] loop of [updateOLED] with [n] iterations left: the cursor
    after the loop and [drew_screen]. *)
Fixpoint scan_slots (n : nat) (now : Z) (d : list display_image) (cursor : Z) : Z * bool :=
  match n with
  | O => (cursor, false)
  | S n' =>
      let cursor := C.rem (cursor + 1) MAX_DISPLAY_IMG in
      if slot_shown now d cursor then (cursor, true)
      else scan_slots n' now d cursor
  end.

(** The test of phase 2 in [updateOLED], as the source writes it:
    [(display_last_set > 0) &&
     (currentMillis - -display_last_set < customDisplayMaxAge)]. *)
Definition summary_shown (s : State) : bool :=
  (display_last_set s >? 0)
  && (C.u32_sub (currentMillis s) (C.u32_neg (display_last_set s))
      <? C.u32 customDisplayMaxAge).

(** The body of [updateOLED] once the interval has elapsed, in three
    steps that follow the three [if] statements of the source. *)
Definition oled_custom_phase (s : State) : State * list Draw :=
  if (displayCycle s =? 1) || (displayCycle s =? 3) then
    let '(cursor, drew_screen) :=
      scan_slots (Z.to_nat MAX_DISPLAY_IMG) (currentMillis s) (dimg s) (displayActive s) in
    let s := set_displayActive cursor s in
    if drew_screen then (s, [drawCustomScreen cursor])
    else (set_displayCycle (C.rem (displayCycle s + 1) 4) s, [])
  else (s, []).

Definition oled_summary2_phase (s : State) : State * list Draw :=
  if displayCycle s =? 2 then
    if summary_shown s then (s, [drawScreen2])
    else (set_displayCycle 0 s, [])
  else (s, []).

Definition oled_summary1_phase (s : State) : State * list Draw :=
  if displayCycle s =? 0 then (s, [drawScreen1]) else (s, []).

(** [currentMillis - previousOled >= oledInterval] *)
Definition oled_due (s : State) : bool :=
  oledInterval s <=? C.u32_sub (currentMillis s) (previousOled s).

Definition oled_fire (s : State) : State * list Draw :=
  let s := set_previousOled (C.u32_add (previousOled s) (oledInterval s)) s in
  let s := set_displayCycle (C.rem (displayCycle s + 1) 4) s in
  let '(s, out1) := oled_custom_phase s in
  let '(s, out2) := oled_summary2_phase s in
  let '(s, out3) := oled_summary1_phase s in
  (s, out1 ++ out2 ++ out3).

(** [void updateOLED()] *)
Definition updateOLED (s : State) : State * list Draw :=
  if oled_due s then oled_fire s else (s, []).

(** ** Strings *)

Definition LF : string := String "010" EmptyString.
Definition DQ : string := String "034" EmptyString.

(** [String(n)] for an integer [n]: its decimal digits. *)
Definition String_of_int (z : Z) : string := NilZero.string_of_int (Z.to_int z).

(** [s.length()] *)
Definition strlen (s : string) : Z := Z.of_nat (String.length s).

(** [atoi] of the C library ([strtol] in base 10, cut to [long]): leading
    white space, an optional sign, then digits up to the first other
    character. *)
Definition is_space (c : ascii) : bool :=
  let n := nat_of_ascii c in
  (n =? 32)%nat || ((9 <=? n)%nat && (n <=? 13)%nat).

Definition digit_of (c : ascii) : option Z :=
  let n := Z.of_nat (nat_of_ascii c) in
  if (48 <=? n) && (n <=? 57) then Some (n - 48) else None.

Fixpoint skip_spaces (s : string) : string :=
  match s with
  | String c r => if is_space c then skip_spaces r else s
  | EmptyString => s
  end.

Fixpoint digits_value (s : string) (acc : Z) : Z :=
  match s with
  | String c r =>
      match digit_of c with
      | Some d => digits_value r (10 * acc + d)
      | None => acc
      end
  | EmptyString => acc
  end.

Definition clamp_long (z : Z) : Z := Z.max (- 2 ^ 31) (Z.min (2 ^ 31 - 1) z).

Definition atoi (s : string) : Z :=
  match skip_spaces s with
  | String "-" r => clamp_long (- digits_value r 0)
  | String "+" r => clamp_long (digits_value r 0)
  | t => clamp_long (digits_value t 0)
  end.

(** ** The HTTP server *)

Inductive HTTPMethod := HTTP_GET | HTTP_POST | HTTP_OTHER.

(** A parsed request: the form fields are kept in the order received. *)
Record Request := {
  method : HTTPMethod;
  uri : string;
  args : list (string * string)
}.

Record Response := {
  status : Z;
  content_type : string;
  body : string
}.

Fixpoint find_arg (name : string) (l : list (string * string)) : option string :=
  match l with
  | [] => None
  | (k, v) :: r => if String.eqb k name then Some v else find_arg name r
  end.

(** [server.hasArg(name)] *)
Definition hasArg (req : Request) (name : string) : bool :=
  match find_arg name (args req) with Some _ => true | None => false end.

(** [server.arg(name)]: the empty string when the field is absent. *)
Definition arg (req : Request) (name : string) : string :=
  default EmptyString (find_arg name (args req)).

(** [memcpy(dst, src, n)] on byte arrays. *)
Definition memcpy (dst src : list Byte.byte) (n : Z) : list Byte.byte :=
  take (Z.to_nat n) src ++ drop (Z.to_nat n) dst.

(** The buffer [s.c_str()] points to: the characters and the final NUL. *)
Definition c_str (s : string) : list Byte.byte :=
  list_byte_of_string s ++ [Byte.x00].

(** [dimg[i].active = b;] *)
Definition set_slot_active (i : Z) (b : bool) (d : list display_image) : list display_image :=
  <[Z.to_nat i := {| display := display (dimg_at d i); active := b;
                     last_updated := last_updated (dimg_at d i) |}]> d.

(** [dimg[i].last_updated = v;] *)
Definition set_slot_last_updated (i : Z) (v : Z) (d : list display_image) : list display_image :=
  <[Z.to_nat i := {| display := display (dimg_at d i); active := active (dimg_at d i);
                     last_updated := v |}]> d.

(** [memcpy(dimg[i].display, src, n);] *)
Definition copy_slot_display (i : Z) (src : list Byte.byte) (n : Z)
    (d : list display_image) : list display_image :=
  <[Z.to_nat i := {| display := memcpy (display (dimg_at d i)) src n;
                     active := active (dimg_at d i);
                     last_updated := last_updated (dimg_at d i) |}]> d.

(** The body of the [for] loop of [HandleDisplayUpload], on the slot
    array and [retval]. *)
Definition upload_slot (req : Request) (now : Z) (i : Z)
    (acc : list display_image * string) : list display_image * string :=
  let '(d, retval) := acc in
  let argName := ("d" ++ String_of_int i)%string in
  if negb (hasArg req argName) then (d, retval)
  else if strlen (arg req argName) =? 0 then
    let d := set_slot_active i false d in
    (d, (retval ++ ("SUCCESS: " ++ argName ++ " emptied." ++ LF))%string)
  else if negb (strlen (arg req argName) =? DISPLAY_IMG_BYTE_LEN) then
    let retval := (retval ++ ("ERROR: " ++ argName ++ " invalid length." ++ LF))%string in
    (set_slot_active i false d, retval)
  else
    let argVal := arg req argName in
    let d := copy_slot_display i (c_str argVal) DISPLAY_IMG_BYTE_LEN d in
    let d := set_slot_active i true d in
    let d := set_slot_last_updated i (C.i32 now) d in
    (d, (retval ++ ("SUCCESS: " ++ argName ++ " updated." ++ LF))%string).

(** [void HandleDisplayUpload()] *)
Definition HandleDisplayUpload (req : Request) (s : State) : State * Response :=
  let retval := ("Screen Update Results:" ++ LF)%string in
  let '(d, retval) :=
    C.for_upto (Z.to_nat MAX_DISPLAY_IMG) 0 (upload_slot req (currentMillis s))
      (dimg s, retval) in
  (set_dimg d s, {| status := 200; content_type := "text/html"; body := retval |}).

(** [void HandleDisplaySet()] *)
Definition HandleDisplaySet (req : Request) (s : State) : State * Response :=
  let s := set_display_last_set (currentMillis s) s in
  let c := custom s in
  let watt := if hasArg req "watt" then arg req "watt" else custom_watt c in
  let wattavg := if hasArg req "wattavg" then arg req "wattavg" else custom_wattavg c in
  let water := if hasArg req "water" then arg req "water" else custom_water c in
  let watertoday :=
    if hasArg req "watertoday" then arg req "watertoday" else custom_watertoday c in
  let garage := if hasArg req "garage" then arg req "garage" else custom_garage c in
  let garagetime :=
    if hasArg req "garagetime" then arg req "garagetime" else custom_garagetime c in
  let s :=
    set_custom {| custom_watt := watt; custom_wattavg := wattavg; custom_water := water;
                  custom_watertoday := watertoday; custom_garage := garage;
                  custom_garagetime := garagetime |} s in
  let s :=
    if hasArg req "oledInterval"
    then set_oledInterval (C.u32 (atoi (arg req "oledInterval"))) s
    else s in
  (s, {| status := 200; content_type := "text/html"; body := "Thank you." ++ LF |}).

(** ** Metrics, sensors and the polling loop *)

Section Platform.

(** [String(x)] for a [float] (two decimals, from the Arduino core) and
    [WiFi.macAddress()]: supplied by the platform. *)
Variable String_of_float : spec_float -> string.
Variable macAddress : string.

Local Open Scope string_scope.

(** The label set every sample carries. *)
Definition idString (cfg : Config) : string :=
  "{id=" ++ DQ ++ deviceId cfg ++ DQ ++ ",mac=" ++ DQ ++ macAddress ++ DQ ++ "} ".

(** The seven groups of [message += ...] statements of [GenerateMetrics],
    each with the [if] that guards it. *)
Definition metrics_pm (cfg : Config) (sn : Sensors) (message : string) : string :=
  if hasPM cfg && (0 <=? pm25 sn)%Z then
    let message := message ++ ("# HELP aqi Particulate Matter AQI value" ++ LF) in
    let message := message ++ ("# TYPE aqi gauge" ++ LF) in
    let message := message ++ "aqi" in
    let message := message ++ idString cfg in
    let message := message ++ String_of_int (PM_TO_AQI_US (pm25 sn)) in
    let message := message ++ LF in
    let message := message ++ ("# HELP pm025 Particulate Matter PM2.5 value" ++ LF) in
    let message := message ++ ("# TYPE pm025 gauge" ++ LF) in
    let message := message ++ "pm025" in
    let message := message ++ idString cfg in
    let message := message ++ String_of_int (pm25 sn) in
    message ++ LF
  else message.

Definition metrics_nox (cfg : Config) (sn : Sensors) (message : string) : string :=
  if hasSGP41 cfg && (0 <=? NOX sn)%Z then
    let message := message ++ ("# HELP nox Nitrogen Oxides (NOx) value" ++ LF) in
    let message := message ++ ("# TYPE nox gauge" ++ LF) in
    let message := message ++ "nox" in
    let message := message ++ idString cfg in
    let message := message ++ String_of_int (NOX sn) in
    message ++ LF
  else message.

Definition metrics_tvoc (cfg : Config) (sn : Sensors) (message : string) : string :=
  if hasSGP41 cfg && (0 <=? TVOC sn)%Z then
    let message :=
      message ++ ("# HELP tvoc Total volatile organic compounds (TVOC) value" ++ LF) in
    let message := message ++ ("# TYPE tvoc gauge" ++ LF) in
    let message := message ++ "tvoc" in
    let message := message ++ idString cfg in
    let message := message ++ String_of_int (TVOC sn) in
    message ++ LF
  else message.

Definition metrics_rco2 (cfg : Config) (sn : Sensors) (message : string) : string :=
  if hasCO2 cfg && (0 <=? Co2 sn)%Z then
    let message := message ++ ("# HELP rco2 CO2 value, in ppm" ++ LF) in
    let message := message ++ ("# TYPE rco2 gauge" ++ LF) in
    let message := message ++ "rco2" in
    let message := message ++ idString cfg in
    let message := message ++ String_of_int (Co2 sn) in
    message ++ LF
  else message.

Definition metrics_atmp (cfg : Config) (sn : Sensors) (message : string) : string :=
  if hasSHT cfg && F32.leb (F32.of_Z 0) (tempf sn) then
    let message := message ++ ("# HELP atmp Temperature, in degrees Fahrenheit" ++ LF) in
    let message := message ++ ("# TYPE atmp gauge" ++ LF) in
    let message := message ++ "atmp" in
    let message := message ++ idString cfg in
    let message := message ++ String_of_float (tempf sn) in
    message ++ LF
  else message.

Definition metrics_rhum (cfg : Config) (sn : Sensors) (message : string) : string :=
  if hasSHT cfg && (0 <=? hum sn)%Z then
    let message := message ++ ("# HELP rhum Relative humidity, in percent" ++ LF) in
    let message := message ++ ("# TYPE rhum gauge" ++ LF) in
    let message := message ++ "rhum" in
    let message := message ++ idString cfg in
    let message := message ++ String_of_int (hum sn) in
    message ++ LF
  else message.

Definition metrics_uptime (cfg : Config) (s : State) (message : string) : string :=
  let message := message ++ ("# HELP uptimesec Seconds since boot" ++ LF) in
  let message := message ++ ("# TYPE uptimesec gauge" ++ LF) in
  let message := message ++ "uptimesec" in
  let message := message ++ idString cfg in
  let message := message ++ String_of_int (currentMillis s / 1000)%Z in
  message ++ LF.

(** [String GenerateMetrics()] *)
Definition GenerateMetrics (cfg : Config) (s : State) : string :=
  let message := EmptyString in
  let message := metrics_pm cfg (sensors s) message in
  let message := metrics_nox cfg (sensors s) message in
  let message := metrics_tvoc cfg (sensors s) message in
  let message := metrics_rco2 cfg (sensors s) message in
  let message := metrics_atmp cfg (sensors s) message in
  let message := metrics_rhum cfg (sensors s) message in
  metrics_uptime cfg s message.

(** [void HandleRoot()] *)
Definition HandleRoot (cfg : Config) (s : State) : State * Response :=
  (s, {| status := 200; content_type := "text/plain"; body := GenerateMetrics cfg s |}).

(** [void HandleNotFound()] *)
Definition HandleNotFound (req : Request) (s : State) : State * Response :=
  let message := "File Not Found" ++ LF ++ LF in
  let message := message ++ "URI: " in
  let message := message ++ uri req in
  let message := message ++ (LF ++ "Method: ") in
  let message :=
    message ++ (match method req with HTTP_GET => "GET" | _ => "POST" end) in
  let message := message ++ (LF ++ "Arguments: ") in
  let message := message ++ String_of_int (Z.of_nat (length (args req))) in
  let message := message ++ LF in
  let message :=
    fold_left (fun message kv => message ++ (" " ++ fst kv ++ ": " ++ snd kv ++ LF))
      (args req) message in
  (s, {| status := 404; content_type := "text/html"; body := message |}).

(** The routes [setup] registers, as [server.handleClient()] dispatches
    one parsed request. *)
Definition handleClient (cfg : Config) (req : Request) (s : State) : State * Response :=
  match method req with
  | HTTP_GET =>
      if String.eqb (uri req) "/" || String.eqb (uri req) "/metrics"
      then HandleRoot cfg s
      else HandleNotFound req s
  | HTTP_POST =>
      if String.eqb (uri req) "/setscreen2" then HandleDisplaySet req s
      else if String.eqb (uri req) "/uploadscreen" then HandleDisplayUpload req s
      else HandleNotFound req s
  | HTTP_OTHER => HandleNotFound req s
  end.

Local Close Scope string_scope.

(** ** Sensors *)

(** What the hardware and the sensor libraries return during one pass
    of [loop]. *)
Record Hardware := {
  millis : Z;
  getCO2_Raw : Z;
  getPM2_Raw : Z;
  periodicFetchData_t : spec_float;
  periodicFetchData_rh : Z;
  measureRawSignals_error : Z;
  voc_process : Z;
  nox_process : Z
}.

(** [void updateTVOC()].  The compensation values it computes only travel
    to the sensor; the sensor's answers are in [hw]. *)
Definition updateTVOC (hw : Hardware) (now : Z) (sn : Sensors) : Sensors :=
  if C.u32 tvocInterval <=? C.u32_sub now (previousTVOC sn) then
    let prev := C.u32_add (previousTVOC sn) tvocInterval in
    if conditioning_s sn >? 0 then
      {| conditioning_s := C.u16 (conditioning_s sn - 1);
         previousTVOC := prev; TVOC := TVOC sn; NOX := NOX sn;
         previousCo2 := previousCo2 sn; Co2 := Co2 sn;
         previousPm25 := previousPm25 sn; pm25 := pm25 sn;
         previousTempHum := previousTempHum sn; tempc := tempc sn;
         tempf := tempf sn; hum := hum sn |}
    else
      let failed := negb (measureRawSignals_error hw =? 0) in
      {| conditioning_s := conditioning_s sn;
         previousTVOC := prev;
         TVOC := if failed then TVOC sn else voc_process hw;
         NOX := if failed then NOX sn else nox_process hw;
         previousCo2 := previousCo2 sn; Co2 := Co2 sn;
         previousPm25 := previousPm25 sn; pm25 := pm25 sn;
         previousTempHum := previousTempHum sn; tempc := tempc sn;
         tempf := tempf sn; hum := hum sn |}
  else sn.

(** [void updateCo2()] *)
Definition updateCo2 (hw : Hardware) (now : Z) (sn : Sensors) : Sensors :=
  if C.u32 co2Interval <=? C.u32_sub now (previousCo2 sn) then
    {| conditioning_s := conditioning_s sn;
       previousTVOC := previousTVOC sn; TVOC := TVOC sn; NOX := NOX sn;
       previousCo2 := C.u32_add (previousCo2 sn) co2Interval; Co2 := getCO2_Raw hw;
       previousPm25 := previousPm25 sn; pm25 := pm25 sn;
       previousTempHum := previousTempHum sn; tempc := tempc sn;
       tempf := tempf sn; hum := hum sn |}
  else sn.

(** [void updatePm25()] *)
Definition updatePm25 (hw : Hardware) (now : Z) (sn : Sensors) : Sensors :=
  if C.u32 pm25Interval <=? C.u32_sub now (previousPm25 sn) then
    {| conditioning_s := conditioning_s sn;
       previousTVOC := previousTVOC sn; TVOC := TVOC sn; NOX := NOX sn;
       previousCo2 := previousCo2 sn; Co2 := Co2 sn;
       previousPm25 := C.u32_add (previousPm25 sn) pm25Interval; pm25 := getPM2_Raw hw;
       previousTempHum := previousTempHum sn; tempc := tempc sn;
       tempf := tempf sn; hum := hum sn |}
  else sn.

(** [void updateTempHum()] *)
Definition updateTempHum (hw : Hardware) (now : Z) (sn : Sensors) : Sensors :=
  if C.u32 tempHumInterval <=? C.u32_sub now (previousTempHum sn) then
    let t := periodicFetchData_t hw in
    {| conditioning_s := conditioning_s sn;
       previousTVOC := previousTVOC sn; TVOC := TVOC sn; NOX := NOX sn;
       previousCo2 := previousCo2 sn; Co2 := Co2 sn;
       previousPm25 := previousPm25 sn; pm25 := pm25 sn;
       previousTempHum := C.u32_add (previousTempHum sn) tempHumInterval;
       tempc := t;
       tempf := F32.add (F32.div (F32.mul t (F32.of_Z 9)) (F32.of_Z 5)) (F32.of_Z 32);
       hum := periodicFetchData_rh hw |}
  else sn.

(** ** The polling loop *)

(** One pass of [void loop()]: the hardware readings of the pass and
    the request [server.handleClient()] finds, if any. *)
Definition loop (cfg : Config) (hw : Hardware) (client : option Request) (s : State)
    : State * list Draw * option Response :=
  let s := set_currentMillis (C.u32 (millis hw)) s in
  let now := currentMillis s in
  let s := set_sensors (updateTVOC hw now (sensors s)) s in
  let s := set_sensors (updateCo2 hw now (sensors s)) s in
  let s := set_sensors (updatePm25 hw now (sensors s)) s in
  let s := set_sensors (updateTempHum hw now (sensors s)) s in
  let '(s, drawn) := updateOLED s in
  match client with
  | None => (s, drawn, None)
  | Some req => let '(s, r) := handleClient cfg req s in (s, drawn, Some r)
  end.

(** The sketch run from [init_state] over a list of passes: the final
    state and everything drawn. *)
Fixpoint run (cfg : Config) (passes : list (Hardware * option Request)) (s : State)
    : State * list Draw :=
  match passes with
  | [] => (s, [])
  | (hw, client) :: rest =>
      let '(s, drawn, _) := loop cfg hw client s in
      let '(s', drawn') := run cfg rest s in
      (s', drawn ++ drawn')
  end.

End Platform.

(** ** The specification's own definitions

    These follow the wording of the specification, not the source; the
    theorems below compare them with the definitions above. *)

Module Spec.

(** "is_fresh(now, max_age): last_set > 0 && (now - last_set) < max_age" *)
Definition is_fresh (last_set now max_age : Z) : bool :=
  (last_set >? 0) && (now - last_set <? max_age).

(** "is_displayable(index, now, max_age): true iff active and
    now - last_updated < max_age" *)
Definition is_displayable (d : list display_image) (i now max_age : Z) : bool :=
  active (dimg_at d i) && (now - last_updated (dimg_at d i) <? max_age).

(** Exact rational arithmetic for the AQI reference. *)
Definition Qtrunc (q : Q) : Z := if Qle_bool (0 # 1) q then Qfloor q else Qceiling q.

Definition Qround (q : Q) : Z :=
  if Qle_bool (0 # 1) q then Qfloor (q + (1 # 2))%Q else Qceiling (q - (1 # 2))%Q.

(** A breakpoint band: the index range and the concentration range. *)
Record band := {
  I_high : Z;
  I_low : Z;
  BP_high : Q;
  BP_low : Q
}.

(** [x > t], strictly. *)
Definition Qgt_bool (x t : Q) : bool := negb (Qle_bool x t).

(** Strict comparisons against the descending thresholds. *)
Definition select_band (x : Q) : band :=
  if Qgt_bool x (3505 # 10) then
    {| I_high := 500; I_low := 401; BP_high := 5004 # 10; BP_low := 3505 # 10 |}
  else if Qgt_bool x (2505 # 10) then
    {| I_high := 400; I_low := 301; BP_high := 3504 # 10; BP_low := 2505 # 10 |}
  else if Qgt_bool x (1505 # 10) then
    {| I_high := 300; I_low := 201; BP_high := 2504 # 10; BP_low := 1505 # 10 |}
  else if Qgt_bool x (555 # 10) then
    {| I_high := 200; I_low := 151; BP_high := 1504 # 10; BP_low := 555 # 10 |}
  else if Qgt_bool x (355 # 10) then
    {| I_high := 150; I_low := 101; BP_high := 554 # 10; BP_low := 355 # 10 |}
  else if Qgt_bool x (121 # 10) then
    {| I_high := 100; I_low := 51; BP_high := 354 # 10; BP_low := 121 # 10 |}
  else
    {| I_high := 50; I_low := 0; BP_high := 12 # 1; BP_low := 0 # 1 |}.

(** "int(round((I_high - I_low) / (BP_high - BP_low)) * (raw - BP_low) + I_low)" *)
Definition interpolate (b : band) (raw : Z) : Z :=
  let slope := Qround (inject_Z (I_high b - I_low b) / (BP_high b - BP_low b))%Q in
  Qtrunc (inject_Z slope * (inject_Z raw - BP_low b) + inject_Z (I_low b))%Q.

Definition pm_to_aqi (raw : Z) : Z :=
  if raw <? 0 then raw
  else if raw >? 1000 then 500
  else interpolate (select_band (inject_Z raw)) raw.

(** The quantities of the metrics page, in the order of the page. *)
Inductive quantity := q_pm | q_nox | q_tvoc | q_rco2 | q_atmp | q_rhum.

Definition quantities : list quantity := [q_pm; q_nox; q_tvoc; q_rco2; q_atmp; q_rhum].

(** The capability flag of a quantity. *)
Definition capable (cfg : Config) (q : quantity) : bool :=
  match q with
  | q_pm => hasPM cfg
  | q_nox | q_tvoc => hasSGP41 cfg
  | q_rco2 => hasCO2 cfg
  | q_atmp | q_rhum => hasSHT cfg
  end.

(** Whether the current value of a quantity is non-negative. *)
Definition non_negative (s : State) (q : quantity) : bool :=
  match q with
  | q_pm => 0 <=? pm25 (sensors s)
  | q_nox => 0 <=? NOX (sensors s)
  | q_tvoc => 0 <=? TVOC (sensors s)
  | q_rco2 => 0 <=? Co2 (sensors s)
  | q_atmp => F32.leb (F32.of_Z 0) (tempf (sensors s))
  | q_rhum => 0 <=? hum (sensors s)
  end.

Section Blocks.
Variable String_of_float : spec_float -> string.
Variable macAddress : string.
Local Open Scope string_scope.

Definition labels (cfg : Config) : string :=
  "{id=" ++ DQ ++ deviceId cfg ++ DQ ++ ",mac=" ++ DQ ++ macAddress ++ DQ ++ "} ".

(** One gauge: its HELP line, its TYPE line and its sample line. *)
Definition gauge (cfg : Config) (name help value : string) : string :=
  "# HELP " ++ name ++ " " ++ help ++ LF
  ++ "# TYPE " ++ name ++ " gauge" ++ LF
  ++ name ++ labels cfg ++ value ++ LF.

(** The block of a quantity. *)
Definition block (cfg : Config) (s : State) (q : quantity) : string :=
  let sn := sensors s in
  match q with
  | q_pm =>
      gauge cfg "aqi" "Particulate Matter AQI value"
        (String_of_int (PM_TO_AQI_US (pm25 sn)))
      ++ gauge cfg "pm025" "Particulate Matter PM2.5 value" (String_of_int (pm25 sn))
  | q_nox => gauge cfg "nox" "Nitrogen Oxides (NOx) value" (String_of_int (NOX sn))
  | q_tvoc =>
      gauge cfg "tvoc" "Total volatile organic compounds (TVOC) value"
        (String_of_int (TVOC sn))
  | q_rco2 => gauge cfg "rco2" "CO2 value, in ppm" (String_of_int (Co2 sn))
  | q_atmp =>
      gauge cfg "atmp" "Temperature, in degrees Fahrenheit" (String_of_float (tempf sn))
  | q_rhum => gauge cfg "rhum" "Relative humidity, in percent" (String_of_int (hum sn))
  end.

(** What a quantity contributes to the page: its block, or nothing. *)
Definition shown (cfg : Config) (s : State) (q : quantity) : string :=
  if capable cfg q && non_negative s q then block cfg s q else EmptyString.

Definition uptime_block (cfg : Config) (s : State) : string :=
  gauge cfg "uptimesec" "Seconds since boot" (String_of_int (currentMillis s / 1000)%Z).

(** "a quantity's block is emitted only if its capability flag is set
    AND its current value is non-negative ... Always emits an uptime
    line." *)
Definition emitted (cfg : Config) (s : State) : list quantity :=
  List.filter (fun q => capable cfg q && non_negative s q) quantities.

Definition metrics (cfg : Config) (s : State) : string :=
  fold_right String.append EmptyString (map (block cfg s) (emitted cfg s))
  ++ uptime_block cfg s.
End Blocks.

End Spec.

(** ** Checks and sample states used by the proofs *)

(** The source and the reference agree at [raw]. *)
Definition aqi_agrees (raw : Z) : bool := PM_TO_AQI_US raw =? Spec.pm_to_aqi raw.

(** The conversion does not decrease from [raw] to [raw + 1]. *)
Definition aqi_step_ok (raw : Z) : bool :=
  (raw =? 150) || (PM_TO_AQI_US raw <=? PM_TO_AQI_US (raw + 1)).

(** What every reachable state satisfies: the cursor and the phase are in
    range, the slot array has its 20 entries and every bitmap its 1024
    bytes. *)
Definition image_ok (im : display_image) : bool :=
  (length (display im) =? Z.to_nat DISPLAY_IMG_BYTE_LEN)%nat.

Definition state_ok (s : State) : bool :=
  (0 <=? displayActive s) && (displayActive s <? MAX_DISPLAY_IMG)
  && (0 <=? displayCycle s) && (displayCycle s <? 4)
  && (length (dimg s) =? Z.to_nat MAX_DISPLAY_IMG)%nat
  && forallb image_ok (dimg s).

(** The slot array has its 20 entries of 1024 bytes. *)
Definition slots_ok (d : list display_image) : Prop :=
  length d = Z.to_nat MAX_DISPLAY_IMG
  /\ Forall (fun im => length (display im) = Z.to_nat DISPLAY_IMG_BYTE_LEN) d.

(** The index handed to [drawCustomScreen] is the cursor, inside the
    array. *)
Definition draw_in_bounds (a : Draw) : Prop :=
  match a with
  | drawCustomScreen index => 0 <= index < MAX_DISPLAY_IMG
  | _ => True
  end.

(** The response body contains [line]. *)
Definition reported (line : string) (r : Response) : Prop :=
  exists pre post : string, body r = (pre ++ line ++ post)%string.

(** The phase, the screens drawn and the cursor after a pass of
    [updateOLED]. *)
Definition observe (r : State * list Draw) : Z * list Draw * Z :=
  (displayCycle (fst r), snd r, displayActive (fst r)).

(** Sample passes of [loop]: the clock alone, or the clock and a POST. *)
Definition at_millis (t : Z) : Hardware :=
  {| millis := t; getCO2_Raw := 0; getPM2_Raw := 0;
     periodicFetchData_t := F32.of_Z 0; periodicFetchData_rh := 0;
     measureRawSignals_error := 0; voc_process := 0; nox_process := 0 |}.

Definition post (u : string) (fields : list (string * string)) : Request :=
  {| method := HTTP_POST; uri := u; args := fields |}.

(** A bitmap of the expected length. *)
Definition bitmap_1024 : string :=
  string_of_list_ascii (repeat "A"%char (Z.to_nat DISPLAY_IMG_BYTE_LEN)).

Definition run_plain : list (Hardware * option Request) -> State -> State * list Draw :=
  run (fun _ => EmptyString) EmptyString source_config.

(** Fifty minutes of uptime: the refresh interval is raised to 1000 s, a
    bitmap is uploaded to slot 0, the remote summary is posted at 3000 s,
    and the bitmap is on screen at 4000 s. *)
Definition passes_summary_posted : list (Hardware * option Request) :=
  [ (at_millis 1000, Some (post "/setscreen2" [("oledInterval", "1000000")]%string));
    (at_millis 1000000, Some (post "/uploadscreen" [("d0"%string, bitmap_1024)]));
    (at_millis 2000000, None);
    (at_millis 3000000, Some (post "/setscreen2" [("watt", "5")]%string));
    (at_millis 4000000, None) ].

(** Twenty-five days of uptime: a remote summary is posted 2000 s before
    the clock reaches [2 ^ 31] ms. *)
Definition passes_summary_old : list (Hardware * option Request) :=
  [ (at_millis (2 ^ 31 - 2000000),
     Some (post "/setscreen2" [("oledInterval", "5000000")]%string)) ].

(** One more pass at [t] ms without a request. *)
Definition pass_plain (t : Z) (s : State) : State * list Draw * option Response :=
  loop (fun _ => EmptyString) EmptyString source_config (at_millis t) None s.

(** No slot of the array passes the test of the loop. *)
Definition no_slot_shown (now : Z) (d : list display_image) : bool :=
  forallb (fun i => negb (slot_shown now d i)) (map Z.of_nat (seq 0 (Z.to_nat MAX_DISPLAY_IMG))).

(** The three outcomes of one iteration, on the slot it handles. *)
Definition slot_outcome (req : Request) (now i : Z) (old new : display_image)
    (said : string -> Prop) : Prop :=
  let name := ("d" ++ String_of_int i)%string in
  match find_arg name (args req) with
  | None => new = old
  | Some payload =>
      if strlen payload =? 0 then
        active new = false /\ display new = display old
        /\ last_updated new = last_updated old
        /\ said ("SUCCESS: " ++ name ++ " emptied." ++ LF)%string
      else if strlen payload =? DISPLAY_IMG_BYTE_LEN then
        display new = list_byte_of_string payload /\ active new = true
        /\ last_updated new = C.i32 now /\ C.u32 (last_updated new) = C.u32 now
        /\ (0 <= now < 2 ^ 31 -> last_updated new = now)
        /\ said ("SUCCESS: " ++ name ++ " updated." ++ LF)%string
      else
        active new = false /\ display new = display old
        /\ last_updated new = last_updated old
        /\ said ("ERROR: " ++ name ++ " invalid length." ++ LF)%string
  end.

(** The value of a form field after a request: the one sent, or the one
    kept. *)
Definition field_after (req : Request) (name old : string) : string :=
  match find_arg name (args req) with Some v => v | None => old end.

(** The two posts of the example: [watt] at 100 ms, [wattavg] at 200 ms. *)
Definition after_two_posts : State :=
  let s1 := fst (HandleDisplaySet (post "/setscreen2" [("watt", "5")]%string)
                   (set_currentMillis 100 init_state)) in
  fst (HandleDisplaySet (post "/setscreen2" [("wattavg", "6")]%string)
         (set_currentMillis 200 s1)).

(** An upload with a full bitmap for slot 3, a short one for slot 4 and
    an empty one for slot 5. *)
Definition upload_3_4_5 : Request :=
  post "/uploadscreen"
    [("d3"%string, bitmap_1024); ("d4", "short")%string; ("d5"%string, EmptyString)].

(** The slot array after boot with slots 2, 7 and 15 switched on. *)
Definition slots_2_7_15 : list display_image :=
  set_slot_active 15 true (set_slot_active 7 true (set_slot_active 2 true (dimg init_state))).

(** The sketch 5 s after boot, its first tick due, with the slots 2, 7
    and 15 switched on. *)
Definition state_2_7_15 : State :=
  set_currentMillis 5000 (set_dimg slots_2_7_15 init_state).

(** Bitmaps for the slots 2, 7 and 15 in one upload, one second after
    boot, and then seven ticks of the display, 5 s apart. *)
Definition upload_2_7_15 : Request :=
  post "/uploadscreen"
    [("d2"%string, bitmap_1024); ("d7"%string, bitmap_1024); ("d15"%string, bitmap_1024)].

Definition passes_rotation : list (Hardware * option Request) :=
  [ (at_millis 1000, Some upload_2_7_15);
    (at_millis 5000, None); (at_millis 10000, None); (at_millis 15000, None);
    (at_millis 20000, None); (at_millis 25000, None); (at_millis 30000, None);
    (at_millis 35000, None) ].

(** ** Definitions for the further properties *)

(** The closed form of the conversion between 0 and 1000. *)
Definition aqi_affine (raw : Z) : Z :=
  if raw <=? 12 then 4 * raw
  else if raw <=? 35 then 2 * raw + 26
  else if raw <=? 55 then 2 * raw + 30
  else if raw <=? 150 then raw + 95
  else raw + 50.

Definition aqi_affine_ok (raw : Z) : bool := PM_TO_AQI_US raw =? aqi_affine raw.

(** [if (currentMillis - previous >= interval)] for a sensor. *)
Definition sensor_due (interval now previous : Z) : bool :=
  C.u32 interval <=? C.u32_sub now previous.

(** The routes [setup] registers with [server.on]. *)
Definition is_route (m : HTTPMethod) (u : string) (req : Request) : bool :=
  match method req, m with
  | HTTP_GET, HTTP_GET | HTTP_POST, HTTP_POST => String.eqb (uri req) u
  | _, _ => false
  end.

Definition routed (req : Request) : bool :=
  is_route HTTP_GET "/" req || is_route HTTP_GET "/metrics" req
  || is_route HTTP_POST "/setscreen2" req || is_route HTTP_POST "/uploadscreen" req.

(** The screen a phase stands for. *)
Definition phase_shows (s : State) (a : Draw) : Prop :=
  match a with
  | drawScreen1 => displayCycle s = 0
  | drawScreen2 => displayCycle s = 2
  | drawCustomScreen index =>
      (displayCycle s = 1 \/ displayCycle s = 3) /\ index = displayActive s
  end.

(** The screen on the panel after some redraws, [before] being the one
    on it at the start. *)
Definition on_panel (before : option Draw) (drawn : list Draw) : option Draw :=
  match last drawn with
  | Some a => Some a
  | None => before
  end.

(** The passes that carry a POST to [u]. *)
Definition posts_to (u : string) (pass : Hardware * option Request) : bool :=
  match snd pass with
  | Some req => is_route HTTP_POST u req
  | None => false
  end.

(** One line of the argument dump of [HandleNotFound]. *)
Definition arg_line (kv : string * string) : string :=
  (" " ++ fst kv ++ ": " ++ snd kv ++ LF)%string.

(** The SGP41 is still being conditioned, or has been: the countdown is in
    range and no index has been taken while it runs. *)
Definition conditioning_ok (sn : Sensors) : Prop :=
  0 <= conditioning_s sn <= 10
  /\ (0 < conditioning_s sn -> TVOC sn = 0 /\ NOX sn = 0).

(** The phase agrees with the screen on the panel; before the first tick
    the panel still shows the boot messages and the phase is 0. *)
Definition panel_ok (s : State) (panel : option Draw) : Prop :=
  match panel with
  | Some a => phase_shows s a
  | None => displayCycle s = 0
  end.

(** A redraw that is not of a custom bitmap, and one that is not of the
    remote summary. *)
Definition not_custom (a : Draw) : Prop :=
  match a with drawCustomScreen _ => False | _ => True end.

Definition not_summary2 (a : Draw) : Prop :=
  match a with drawScreen2 => False | _ => True end.

Definition all_inactive (d : list display_image) : bool :=
  forallb (fun im => negb (active im)) d.

(** * Properties *)

(** ** AQI conversion *)

Lemma Z_range_In (n : nat) (z : Z) :
  0 <= z < Z.of_nat n -> In z (map Z.of_nat (seq 0 n)).
Proof.
  intros Hz. apply in_map_iff. exists (Z.to_nat z). split.
  - apply Z2Nat.id. lia.
  - apply in_seq. lia.
Qed.

(** A boolean check over [0 .. n-1] decides a property of that range. *)
Lemma Z_range_forallb (n : nat) (f : Z -> bool) :
  forallb f (map Z.of_nat (seq 0 n)) = true ->
  forall z, 0 <= z < Z.of_nat n -> f z = true.
Proof.
  intros Hall z Hz. rewrite forallb_forall in Hall.
  apply Hall, Z_range_In, Hz.
Qed.

Lemma aqi_agrees_in_range : forallb aqi_agrees (map Z.of_nat (seq 0 1001)) = true.
Proof. vm_compute. reflexivity. Qed.

Lemma PM_TO_AQI_US_negative (raw : Z) : raw < 0 -> PM_TO_AQI_US raw = raw.
Proof.
  intros H. unfold PM_TO_AQI_US.
  destruct (Z.ltb_spec raw 0) as [_ | Hge]; [reflexivity | lia].
Qed.

Lemma PM_TO_AQI_US_capped (raw : Z) : 1000 < raw -> PM_TO_AQI_US raw = 500.
Proof.
  intros H. unfold PM_TO_AQI_US.
  destruct (Z.ltb_spec raw 0) as [Hlt | _]; [lia |].
  replace (raw >? 1000) with true; [reflexivity |].
  symmetry. apply Z.gtb_lt. lia.
Qed.

Lemma pm_to_aqi_negative (raw : Z) : raw < 0 -> Spec.pm_to_aqi raw = raw.
Proof.
  intros H. unfold Spec.pm_to_aqi.
  destruct (Z.ltb_spec raw 0) as [_ | Hge]; [reflexivity | lia].
Qed.

Lemma pm_to_aqi_capped (raw : Z) : 1000 < raw -> Spec.pm_to_aqi raw = 500.
Proof.
  intros H. unfold Spec.pm_to_aqi.
  destruct (Z.ltb_spec raw 0) as [Hlt | _]; [lia |].
  replace (raw >? 1000) with true; [reflexivity |].
  symmetry. apply Z.gtb_lt. lia.
Qed.

(** C6: for every [raw] the conversion of the source, computed in binary32
    and binary64 floating point, equals the reference definition computed
    in exact rationals: a negative [raw] is returned unchanged, a [raw]
    above 1000 gives 500, and in between the band is chosen by strict
    comparisons against 350.5, 250.5, 150.5, 55.5, 35.5, 12.1 (a value equal
    to a threshold belongs to the lower band) and the result is
    [int(round(slope) * (raw - BP_low) + I_low)], the slope alone being
    rounded. *)
Theorem PM_TO_AQI_US_reference (raw : Z) (p : positive) :
  PM_TO_AQI_US raw = Spec.pm_to_aqi raw
  /\ PM_TO_AQI_US (Z.neg p) = Z.neg p
  /\ PM_TO_AQI_US (1000 + Z.pos p) = 500
  /\ Spec.I_low (Spec.select_band (3505 # 10)) = 301
  /\ Spec.I_low (Spec.select_band (2505 # 10)) = 201
  /\ Spec.I_low (Spec.select_band (1505 # 10)) = 151
  /\ Spec.I_low (Spec.select_band (555 # 10)) = 101
  /\ Spec.I_low (Spec.select_band (355 # 10)) = 51
  /\ Spec.I_low (Spec.select_band (121 # 10)) = 0.
Proof.
  split; [| split; [| split]].
  - destruct (Z_lt_le_dec raw 0) as [Hneg | Hnn].
    + rewrite PM_TO_AQI_US_negative, pm_to_aqi_negative by assumption. reflexivity.
    + destruct (Z_lt_le_dec 1000 raw) as [Hbig | Hsmall].
      * rewrite PM_TO_AQI_US_capped, pm_to_aqi_capped by assumption. reflexivity.
      * apply Z.eqb_eq.
        apply (Z_range_forallb 1001 aqi_agrees aqi_agrees_in_range). lia.
  - apply PM_TO_AQI_US_negative. lia.
  - apply PM_TO_AQI_US_capped. lia.
  - vm_compute. repeat split; reflexivity.
Qed.

Lemma aqi_step_ok_in_range : forallb aqi_step_ok (map Z.of_nat (seq 0 1000)) = true.
Proof. vm_compute. reflexivity. Qed.

(** Between 0 and 1000 the conversion never decreases from one value to
    the next, except from 150 to 151. *)
Lemma PM_TO_AQI_US_steps (raw : Z) :
  0 <= raw < 1000 -> raw <> 150 -> PM_TO_AQI_US raw <= PM_TO_AQI_US (raw + 1).
Proof.
  intros Hr Hne.
  pose proof (Z_range_forallb 1000 aqi_step_ok aqi_step_ok_in_range raw) as H.
  unfold aqi_step_ok in H.
  destruct (Z.eqb_spec raw 150) as [-> | _]; [lia |].
  apply Z.leb_le, H. lia.
Qed.

(** C2: the conversion is not monotone on [0, 1000]: the "Unhealthy" band
    is left at 245 for [raw = 150] while the next band starts at 201 for
    [raw = 151]; the table in the source gives 151-200 for that band.  It is
    the one descent: every other step from [raw] to [raw + 1] goes up or
    stays. *)
Theorem PM_TO_AQI_US_drops_after_150 :
  PM_TO_AQI_US 150 = 245
  /\ PM_TO_AQI_US 151 = 201
  /\ (PM_TO_AQI_US 151 <? PM_TO_AQI_US 150) = true
  /\ (forall raw, 0 <= raw < 1000 -> raw <> 150 ->
        PM_TO_AQI_US raw <= PM_TO_AQI_US (raw + 1)).
Proof.
  split; [vm_compute; reflexivity |].
  split; [vm_compute; reflexivity |].
  split; [vm_compute; reflexivity |].
  exact PM_TO_AQI_US_steps.
Qed.

(** ** The slot search *)

Lemma rem_step (c : Z) :
  0 <= c -> C.rem (c + 1) MAX_DISPLAY_IMG = (c + 1) mod MAX_DISPLAY_IMG.
Proof.
  intros Hc. unfold C.rem. apply Z.rem_mod_nonneg; unfold MAX_DISPLAY_IMG; lia.
Qed.

Lemma rem_step_range (c : Z) :
  0 <= c -> 0 <= C.rem (c + 1) MAX_DISPLAY_IMG < MAX_DISPLAY_IMG.
Proof.
  intros Hc. rewrite rem_step by assumption.
  apply Z.mod_pos_bound. unfold MAX_DISPLAY_IMG. lia.
Qed.

Lemma cursor_nonneg (c : Z) : 0 <= c mod MAX_DISPLAY_IMG.
Proof. apply Z.mod_pos_bound. unfold MAX_DISPLAY_IMG. lia. Qed.

Lemma cursor_shift (c k : Z) :
  ((c + 1) mod MAX_DISPLAY_IMG + k) mod MAX_DISPLAY_IMG
  = (c + (k + 1)) mod MAX_DISPLAY_IMG.
Proof.
  rewrite Zplus_mod_idemp_l. f_equal. lia.
Qed.

(** What the loop returns, by induction on the iterations left. *)
Lemma scan_slots_found (n : nat) (now : Z) (d : list display_image) :
  forall c c', 0 <= c ->
  scan_slots n now d c = (c', true) ->
  slot_shown now d c' = true
  /\ exists k, 1 <= k <= Z.of_nat n
     /\ c' = (c + k) mod MAX_DISPLAY_IMG
     /\ forall j, 1 <= j < k -> slot_shown now d ((c + j) mod MAX_DISPLAY_IMG) = false.
Proof.
  induction n as [| n IH]; intros c c' Hc Hscan; cbn [scan_slots] in Hscan.
  - discriminate.
  - rewrite rem_step in Hscan by assumption.
    destruct (slot_shown now d ((c + 1) mod MAX_DISPLAY_IMG)) eqn:Hshown.
    + injection Hscan as <-. split; [assumption |].
      exists 1. split; [lia |]. split; [reflexivity |]. intros j Hj. lia.
    + apply IH in Hscan as [Hc' (k & Hk & Heq & Hbefore)].
      2:{ apply cursor_nonneg. }
      split; [assumption |].
      exists (k + 1). split; [lia |]. split.
      * rewrite Heq. apply cursor_shift.
      * intros j Hj. destruct (Z.eq_dec j 1) as [-> | Hne]; [assumption |].
        specialize (Hbefore (j - 1) ltac:(lia)).
        rewrite cursor_shift in Hbefore.
        replace (j - 1 + 1) with j in Hbefore by lia. assumption.
Qed.

Lemma scan_slots_none (n : nat) (now : Z) (d : list display_image) :
  forall c c', 0 <= c ->
  scan_slots n now d c = (c', false) ->
  c' = (c + Z.of_nat n) mod MAX_DISPLAY_IMG \/ (n = O /\ c' = c).
Proof.
  induction n as [| n IH]; intros c c' Hc Hscan; cbn [scan_slots] in Hscan.
  - right. split; [reflexivity | congruence].
  - left. rewrite rem_step in Hscan by assumption.
    destruct (slot_shown now d ((c + 1) mod MAX_DISPLAY_IMG)); [discriminate |].
    apply IH in Hscan as [Heq | [-> ->]].
    + rewrite Heq, cursor_shift. f_equal. lia.
    + f_equal.
    + apply cursor_nonneg.
Qed.

Lemma scan_slots_none_seen (n : nat) (now : Z) (d : list display_image) :
  forall c c', 0 <= c ->
  scan_slots n now d c = (c', false) ->
  forall j, 1 <= j <= Z.of_nat n -> slot_shown now d ((c + j) mod MAX_DISPLAY_IMG) = false.
Proof.
  induction n as [| n IH]; intros c c' Hc Hscan j Hj; cbn [scan_slots] in Hscan.
  - lia.
  - rewrite rem_step in Hscan by assumption.
    destruct (slot_shown now d ((c + 1) mod MAX_DISPLAY_IMG)) eqn:Hshown; [discriminate |].
    destruct (Z.eq_dec j 1) as [-> | Hne]; [assumption |].
    pose proof (IH _ _ (cursor_nonneg (c + 1)) Hscan (j - 1) ltac:(lia)) as H.
    rewrite cursor_shift in H. replace (j - 1 + 1) with j in H by lia. assumption.
Qed.

(** The first shown slot in cyclic order is the one returned. *)
Lemma scan_slots_first (n : nat) (now : Z) (d : list display_image) :
  forall c k, 0 <= c -> 1 <= k <= Z.of_nat n ->
  slot_shown now d ((c + k) mod MAX_DISPLAY_IMG) = true ->
  (forall j, 1 <= j < k -> slot_shown now d ((c + j) mod MAX_DISPLAY_IMG) = false) ->
  scan_slots n now d c = ((c + k) mod MAX_DISPLAY_IMG, true).
Proof.
  induction n as [| n IH]; intros c k Hc Hk Hshown Hbefore; [lia |].
  cbn [scan_slots]. rewrite rem_step by assumption.
  destruct (Z.eq_dec k 1) as [-> | Hne].
  - rewrite Hshown. reflexivity.
  - rewrite (Hbefore 1) by lia.
    rewrite (IH ((c + 1) mod MAX_DISPLAY_IMG) (k - 1)).
    + rewrite cursor_shift. do 2 f_equal. lia.
    + apply cursor_nonneg.
    + lia.
    + rewrite cursor_shift. replace (k - 1 + 1) with k by lia. assumption.
    + intros j Hj. rewrite cursor_shift. apply Hbefore. lia.
Qed.

Lemma scan_slots_all_hidden (n : nat) (now : Z) (d : list display_image) :
  forall c, 0 <= c ->
  (forall i, 0 <= i < MAX_DISPLAY_IMG -> slot_shown now d i = false) ->
  exists c', scan_slots n now d c = (c', false).
Proof.
  induction n as [| n IH]; intros c Hc Hnone; cbn [scan_slots].
  - eexists. reflexivity.
  - rewrite (Hnone _ (rem_step_range c Hc)).
    apply IH; [apply rem_step_range, Hc | assumption].
Qed.

Lemma full_cycle (c : Z) :
  0 <= c < MAX_DISPLAY_IMG ->
  (c + Z.of_nat (Z.to_nat MAX_DISPLAY_IMG)) mod MAX_DISPLAY_IMG = c.
Proof.
  unfold MAX_DISPLAY_IMG. intros Hc.
  replace (c + Z.of_nat (Z.to_nat 20)) with (c + 1 * 20) by lia.
  rewrite Z_mod_plus_full. apply Z.mod_small. lia.
Qed.

(** Without wrap-around the test of the loop is the specification's. *)
Lemma slot_shown_is_displayable (now : Z) (d : list display_image) (i : Z) :
  0 <= last_updated (dimg_at d i) <= now -> now < 2 ^ 32 ->
  slot_shown now d i = Spec.is_displayable d i now customDisplayMaxAge.
Proof.
  intros Hl Hn. unfold slot_shown, Spec.is_displayable, C.u32_sub, C.u32.
  rewrite (Z.mod_small (last_updated _)) by lia.
  rewrite (Z.mod_small (now - _)) by lia.
  rewrite (Z.mod_small customDisplayMaxAge) by (unfold customDisplayMaxAge; lia).
  reflexivity.
Qed.

Lemma cyclic_offset (c i : Z) :
  0 <= c < MAX_DISPLAY_IMG -> 0 <= i < MAX_DISPLAY_IMG ->
  exists j, 1 <= j <= MAX_DISPLAY_IMG /\ (c + j) mod MAX_DISPLAY_IMG = i.
Proof.
  unfold MAX_DISPLAY_IMG. intros Hc Hi.
  destruct (Z_lt_le_dec c i) as [Hlt | Hle].
  - exists (i - c). split; [lia |].
    replace (c + (i - c)) with i by lia. apply Z.mod_small. lia.
  - exists (i - c + 20). split; [lia |].
    replace (c + (i - c + 20)) with (i + 1 * 20) by lia.
    rewrite Z_mod_plus_full. apply Z.mod_small. lia.
Qed.

(** The pattern "exactly slots 2, 7 and 15 are shown". *)
Lemma scan_slots_2_7_15 (now : Z) (d : list display_image) (c k : Z) :
  (forall i, 0 <= i < MAX_DISPLAY_IMG ->
     slot_shown now d i = (i =? 2) || (i =? 7) || (i =? 15)) ->
  0 <= c < MAX_DISPLAY_IMG -> 1 <= k <= MAX_DISPLAY_IMG ->
  (c + k = 2 \/ c + k = 7 \/ c + k = 15 \/ c + k = 22) ->
  (forall j, 1 <= j < k -> c + j <> 2 /\ c + j <> 7 /\ c + j <> 15 /\ c + j <> 22) ->
  scan_slots (Z.to_nat MAX_DISPLAY_IMG) now d c = ((c + k) mod MAX_DISPLAY_IMG, true).
Proof.
  unfold MAX_DISPLAY_IMG. intros Hpat Hc Hk Hhit Hmiss.
  apply scan_slots_first; unfold MAX_DISPLAY_IMG; try lia.
  - rewrite Hpat by (apply Z.mod_pos_bound; lia).
    assert (Hm : (c + k) mod 20 = 2 \/ (c + k) mod 20 = 7 \/ (c + k) mod 20 = 15).
    { destruct Hhit as [E | [E | [E | E]]]; rewrite E;
        [left | right; left | right; right | left]; reflexivity. }
    destruct Hm as [-> | [-> | ->]]; reflexivity.
  - intros j Hj. rewrite Hpat by (apply Z.mod_pos_bound; lia).
    specialize (Hmiss j Hj).
    assert (Hm : (c + j) mod 20 <> 2 /\ (c + j) mod 20 <> 7 /\ (c + j) mod 20 <> 15).
    { destruct (Z_lt_le_dec (c + j) 20) as [Hlt | Hge].
      - rewrite Z.mod_small by lia. lia.
      - replace (c + j) with (c + j - 20 + 1 * 20) by lia.
        rewrite Z_mod_plus_full, Z.mod_small by lia. lia. }
    destruct Hm as (H2 & H7 & H15).
    apply Z.eqb_neq in H2, H7, H15. rewrite H2, H7, H15. reflexivity.
Qed.

(** A full scan from a cursor inside the array that shows nothing ends on
    the cursor it started from, having seen every slot. *)
Lemma scan_slots_none_full (now : Z) (d : list display_image) (cursor c' : Z) :
  0 <= cursor < MAX_DISPLAY_IMG ->
  scan_slots (Z.to_nat MAX_DISPLAY_IMG) now d cursor = (c', false) ->
  c' = cursor /\ forall i, 0 <= i < MAX_DISPLAY_IMG -> slot_shown now d i = false.
Proof.
  intros Hc Hscan. split.
  - destruct (scan_slots_none _ _ _ _ _ (proj1 Hc) Hscan) as [-> | [Hn _]].
    + apply full_cycle, Hc.
    + discriminate Hn.
  - intros i Hi. destruct (cyclic_offset cursor i Hc Hi) as (j & Hj & <-).
    apply (scan_slots_none_seen _ _ _ _ _ (proj1 Hc) Hscan).
    unfold MAX_DISPLAY_IMG in *. lia.
Qed.

Lemma scan_slots_nothing (now : Z) (d : list display_image) (cursor : Z) :
  0 <= cursor < MAX_DISPLAY_IMG ->
  (forall i, 0 <= i < MAX_DISPLAY_IMG -> slot_shown now d i = false) ->
  scan_slots (Z.to_nat MAX_DISPLAY_IMG) now d cursor = (cursor, false).
Proof.
  intros Hc Hhidden.
  destruct (scan_slots_all_hidden (Z.to_nat MAX_DISPLAY_IMG) now d cursor (proj1 Hc) Hhidden)
    as [c' Hscan].
  rewrite Hscan. f_equal. apply (scan_slots_none_full now d cursor c' Hc Hscan).
Qed.

(** ** The display cycle *)

Lemma state_ok_inv (s : State) :
  state_ok s = true ->
  0 <= displayActive s < MAX_DISPLAY_IMG
  /\ 0 <= displayCycle s < 4
  /\ length (dimg s) = Z.to_nat MAX_DISPLAY_IMG
  /\ Forall (fun im => length (display im) = Z.to_nat DISPLAY_IMG_BYTE_LEN) (dimg s).
Proof.
  unfold state_ok. rewrite !andb_true_iff.
  intros [[[[[H1 H2] H3] H4] H5] H6].
  apply Z.leb_le in H1, H3. apply Z.ltb_lt in H2, H4. apply Nat.eqb_eq in H5.
  repeat split; try assumption.
  apply Forall_forall. intros im Him.
  rewrite forallb_forall in H6. apply Nat.eqb_eq, H6.
  apply list_elem_of_In. assumption.
Qed.

(** The four values of [(phase + 1) % 4]. *)
Lemma rem_phase_0 : C.rem (0 + 1) 4 = 1. Proof. reflexivity. Qed.
Lemma rem_phase_1 : C.rem (1 + 1) 4 = 2. Proof. reflexivity. Qed.
Lemma rem_phase_2 : C.rem (2 + 1) 4 = 3. Proof. reflexivity. Qed.
Lemma rem_phase_3 : C.rem (3 + 1) 4 = 0. Proof. reflexivity. Qed.
Lemma mod_phase_0 : (0 + 1) mod 4 = 1. Proof. reflexivity. Qed.
Lemma mod_phase_1 : (1 + 1) mod 4 = 2. Proof. reflexivity. Qed.
Lemma mod_phase_2 : (2 + 1) mod 4 = 3. Proof. reflexivity. Qed.
Lemma mod_phase_3 : (3 + 1) mod 4 = 0. Proof. reflexivity. Qed.

Create Rewrite HintDb phase.
#[local] Hint Rewrite rem_phase_0 rem_phase_1 rem_phase_2 rem_phase_3
  mod_phase_0 mod_phase_1 mod_phase_2 mod_phase_3 : phase.

(** Reads of a field after writes of fields, and the tests on a known
    phase. *)
Ltac oled_simpl :=
  repeat (progress (
    cbn [fst snd app orb andb negb Z.eqb Pos.eqb
         currentMillis display_last_set oledInterval previousOled sensors custom dimg
         displayActive displayCycle
         set_previousOled set_displayActive set_displayCycle];
    autorewrite with phase)).

(** The observable result of a fired tick, phase by phase. *)
Lemma oled_fire_observe (s : State) :
  0 <= displayCycle s < 4 ->
  let new := (displayCycle s + 1) mod 4 in
  let sc := scan_slots (Z.to_nat MAX_DISPLAY_IMG) (currentMillis s) (dimg s) (displayActive s) in
  observe (oled_fire s) =
    if (new =? 1) || (new =? 3) then
      if snd sc then (new, [drawCustomScreen (fst sc)], fst sc)
      else if (new =? 1) && summary_shown s then (2, [drawScreen2], fst sc)
      else (0, [drawScreen1], fst sc)
    else if (new =? 2) && summary_shown s then (2, [drawScreen2], displayActive s)
    else (0, [drawScreen1], displayActive s).
Proof.
  destruct s as [now last_set interval prev sn cu d cursor cycle].
  cbn [displayCycle currentMillis dimg displayActive]. intros Hcycle.
  assert (Hc : cycle = 0 \/ cycle = 1 \/ cycle = 2 \/ cycle = 3) by lia.
  unfold observe, oled_fire, oled_custom_phase, oled_summary2_phase, oled_summary1_phase,
    summary_shown.
  destruct Hc as [-> | [-> | [-> | ->]]]; oled_simpl; try reflexivity.
  - destruct (scan_slots _ _ _ _) as [c [|]]; oled_simpl; [reflexivity |].
    destruct ((last_set >? 0) && _); oled_simpl; reflexivity.
  - destruct ((last_set >? 0) && _); oled_simpl; reflexivity.
  - destruct (scan_slots _ _ _ _) as [c [|]]; oled_simpl; reflexivity.
Qed.

Lemma no_slot_shown_spec (now : Z) (d : list display_image) :
  no_slot_shown now d = true ->
  forall i, 0 <= i < MAX_DISPLAY_IMG -> slot_shown now d i = false.
Proof.
  intros H i Hi. unfold no_slot_shown in H.
  apply negb_true_iff.
  apply (Z_range_forallb _ (fun i => negb (slot_shown now d i)) H).
  unfold MAX_DISPLAY_IMG in *. lia.
Qed.

Lemma new_phase_odd (c : Z) :
  ((c + 1) mod 4 =? 1) || ((c + 1) mod 4 =? 3) = true ->
  (c + 1) mod 4 = 1 \/ (c + 1) mod 4 = 3.
Proof.
  intros H. apply orb_true_iff in H as [H | H]; apply Z.eqb_eq in H; auto.
Qed.

(** A fired tick draws exactly one screen, and the phase it ends in is
    the phase of that screen. *)
Lemma oled_fire_draws_once (s : State) :
  0 <= displayCycle s < 4 -> 0 <= displayActive s ->
  exists a, snd (oled_fire s) = [a]
    /\ match a with
       | drawScreen1 => displayCycle (fst (oled_fire s)) = 0
       | drawScreen2 => displayCycle (fst (oled_fire s)) = 2
       | drawCustomScreen i =>
           (displayCycle (fst (oled_fire s)) = 1 \/ displayCycle (fst (oled_fire s)) = 3)
           /\ i = displayActive (fst (oled_fire s))
           /\ slot_shown (currentMillis s) (dimg s) i = true
       end.
Proof.
  intros Hcycle Hcursor. pose proof (oled_fire_observe s Hcycle) as Hobs.
  cbv zeta in Hobs. unfold observe in Hobs.
  destruct (scan_slots _ _ _ _) as [c found] eqn:Hscan.
  cbn [fst snd] in Hobs.
  destruct (((displayCycle s + 1) mod 4 =? 1) || ((displayCycle s + 1) mod 4 =? 3)) eqn:Hodd.
  - destruct found.
    + injection Hobs as Hc Hout Ha. exists (drawCustomScreen c).
      split; [assumption |]. rewrite Hc, Ha.
      split; [apply new_phase_odd, Hodd |]. split; [reflexivity |].
      apply (scan_slots_found _ _ _ _ _ Hcursor Hscan).
    + destruct (((displayCycle s + 1) mod 4 =? 1) && summary_shown s);
        injection Hobs as Hc Hout Ha; eauto.
  - destruct (((displayCycle s + 1) mod 4 =? 2) && summary_shown s);
      injection Hobs as Hc Hout Ha; eauto.
Qed.

(** A tick touches the timer, the phase and the cursor only. *)
Lemma oled_fire_frame (s : State) :
  let s' := fst (oled_fire s) in
  currentMillis s' = currentMillis s /\ display_last_set s' = display_last_set s
  /\ oledInterval s' = oledInterval s /\ sensors s' = sensors s
  /\ custom s' = custom s /\ dimg s' = dimg s.
Proof.
  unfold oled_fire, oled_custom_phase, oled_summary2_phase, oled_summary1_phase.
  destruct s as [now last_set interval prev sn cu d cursor cycle]. oled_simpl.
  set (s1 := set_displayCycle _ _).
  destruct (_ || _).
  - destruct (scan_slots _ _ _ _) as [c [|]]; oled_simpl;
      repeat match goal with
             | |- context [if ?b then _ else _] => destruct b; oled_simpl
             end; repeat split; reflexivity.
  - repeat match goal with
           | |- context [if ?b then _ else _] => destruct b; oled_simpl
           end; repeat split; reflexivity.
Qed.

(** The test of phase 2 adds the two instants where it should subtract. *)
Lemma summary_shown_sum (s : State) :
  summary_shown s
  = (display_last_set s >? 0)
    && (C.u32 (currentMillis s + display_last_set s) <? C.u32 customDisplayMaxAge).
Proof.
  unfold summary_shown, C.u32_sub, C.u32_neg, C.u32.
  rewrite Zminus_mod_idemp_r.
  replace (currentMillis s - - display_last_set s)
    with (currentMillis s + display_last_set s) by lia.
  reflexivity.
Qed.

(** What a fired tick does when the new phase is 2. *)
Lemma oled_fire_phase2 (s : State) :
  displayCycle s = 1 ->
  observe (oled_fire s)
  = if summary_shown s then (2, [drawScreen2], displayActive s)
    else (0, [drawScreen1], displayActive s).
Proof.
  intros H. rewrite oled_fire_observe by lia. rewrite H. reflexivity.
Qed.

(** Every fired tick draws exactly one screen. *)
Lemma updateOLED_draws_once (s : State) :
  state_ok s = true -> oled_due s = true ->
  exists a, snd (updateOLED s) = [a].
Proof.
  intros Hok Hdue. apply state_ok_inv in Hok as (Hcur & Hcyc & _).
  unfold updateOLED. rewrite Hdue.
  destruct (oled_fire_draws_once s Hcyc (proj1 Hcur)) as (a & Ha & _). eauto.
Qed.

(** With no slot to show and the phase-2 test failing, every fired tick
    ends in phase 0 on the built-in screen, whatever the phase before. *)
Lemma updateOLED_falls_to_summary1 (s : State) :
  state_ok s = true -> oled_due s = true ->
  no_slot_shown (currentMillis s) (dimg s) = true ->
  summary_shown s = false ->
  observe (updateOLED s) = (0, [drawScreen1], displayActive s).
Proof.
  intros Hok Hdue Hnone Hsum. apply state_ok_inv in Hok as (Hcur & Hcyc & _).
  unfold updateOLED. rewrite Hdue, oled_fire_observe by assumption. cbv zeta.
  rewrite (scan_slots_nothing _ _ _ Hcur (no_slot_shown_spec _ _ Hnone)), Hsum.
  cbn [fst snd].
  rewrite !andb_false_r. destruct (_ || _); reflexivity.
Qed.

(** A summary that was never posted is never drawn. *)
Lemma summary_shown_never_set (s : State) :
  display_last_set s = 0 -> summary_shown s = false.
Proof. intros H. unfold summary_shown. rewrite H. reflexivity. Qed.

(** As long as the sum of the two instants fits in 32 bits, a summary that
    is not fresh is not shown. *)
Lemma stale_not_shown_before_wrap (s : State) :
  0 <= display_last_set s <= currentMillis s ->
  currentMillis s + display_last_set s < 2 ^ 32 ->
  Spec.is_fresh (display_last_set s) (currentMillis s) customDisplayMaxAge = false ->
  summary_shown s = false.
Proof.
  intros Hset Hsum Hstale. rewrite summary_shown_sum.
  unfold Spec.is_fresh in Hstale. unfold C.u32.
  rewrite (Z.mod_small (currentMillis s + display_last_set s)) by lia.
  rewrite (Z.mod_small customDisplayMaxAge) by (unfold customDisplayMaxAge; lia).
  destruct (display_last_set s >? 0); [| reflexivity].
  cbn [andb] in *. apply Z.ltb_ge. apply Z.ltb_ge in Hstale. lia.
Qed.

(** C1: when the new phase is 2 the source draws the remote summary iff
    [last_set > 0] and [now + last_set < max_age] (modulo [2 ^ 32]), not
    [now - last_set < max_age]; otherwise it sets the phase to 0 and draws
    the built-in screen.  After fifty minutes of uptime a summary posted
    2000 s earlier is fresh, the new phase is 2, and the tick falls back to
    phase 0 and draws the built-in screen. *)
Theorem summary2_skipped_while_fresh :
  (forall s, displayCycle s = 1 -> oled_due s = true ->
     observe (updateOLED s)
     = if (display_last_set s >? 0)
          && (C.u32 (currentMillis s + display_last_set s) <? C.u32 customDisplayMaxAge)
       then (2, [drawScreen2], displayActive s)
       else (0, [drawScreen1], displayActive s))
  /\ (let s := fst (run_plain passes_summary_posted init_state) in
      let now := 5000000 in
      displayCycle s = 1
      /\ oled_due (set_currentMillis now s) = true
      /\ Spec.is_fresh (display_last_set s) now customDisplayMaxAge = true
      /\ summary_shown (set_currentMillis now s) = false
      /\ (let '(s', drawn, _) := pass_plain now s in (displayCycle s', drawn))
         = (0, [drawScreen1])).
Proof.
  split.
  - intros s Hphase Hdue. unfold updateOLED. rewrite Hdue.
    rewrite oled_fire_phase2 by exact Hphase. rewrite summary_shown_sum. reflexivity.
  - vm_compute. repeat split; reflexivity.
Qed.

(** C7: every fired tick draws exactly one screen, and with no slot to
    show and the test of phase 2 failing it ends in phase 0 on the built-in
    screen, as it does with a summary that is not fresh while
    [now + last_set] fits in 32 bits; but that test is not the freshness of
    the summary.  With no active slot and a remote summary that is 5000 s
    old, the tick that starts in phase 0 ends in phase 2 and draws the
    remote summary: the sum [now + last_set] has wrapped below the maximum
    age. *)
Theorem stale_summary_still_drawn :
  (forall s, state_ok s = true -> oled_due s = true ->
     exists a, snd (updateOLED s) = [a])
  /\ (forall s, state_ok s = true -> oled_due s = true ->
        no_slot_shown (currentMillis s) (dimg s) = true ->
        summary_shown s = false ->
        observe (updateOLED s) = (0, [drawScreen1], displayActive s))
  /\ (forall s, state_ok s = true -> oled_due s = true ->
        no_slot_shown (currentMillis s) (dimg s) = true ->
        0 <= display_last_set s <= currentMillis s ->
        currentMillis s + display_last_set s < 2 ^ 32 ->
        Spec.is_fresh (display_last_set s) (currentMillis s) customDisplayMaxAge = false ->
        observe (updateOLED s) = (0, [drawScreen1], displayActive s))
  /\ (let s := fst (run_plain passes_summary_old init_state) in
      let now := 2 ^ 31 + 3000000 in
      displayCycle s = 0
      /\ forallb (fun im => negb (active im)) (dimg s) = true
      /\ no_slot_shown now (dimg s) = true
      /\ Spec.is_fresh (display_last_set s) now customDisplayMaxAge = false
      /\ oled_due (set_currentMillis now s) = true
      /\ (let '(s', drawn, _) := pass_plain now s in (displayCycle s', drawn))
         = (2, [drawScreen2])).
Proof.
  split; [exact updateOLED_draws_once |].
  split; [exact updateOLED_falls_to_summary1 |].
  split.
  - intros s Hok Hdue Hnone Hset Hsum Hstale.
    apply updateOLED_falls_to_summary1; try assumption.
    apply stale_not_shown_before_wrap; assumption.
  - vm_compute. repeat split; reflexivity.
Qed.

(** C3 (as stated) fails on the first tick after boot: the new phase is 1,
    no slot can be shown, and the tick ends in phase 0, not in phase 2. *)
Lemma single_hop_counterexample :
  let s := set_currentMillis 5000 init_state in
  oled_due s = true
  /\ (displayCycle s + 1) mod 4 = 1
  /\ no_slot_shown (currentMillis s) (dimg s) = true
  /\ observe (updateOLED s) = (0, [drawScreen1], 0)
  /\ displayCycle (fst (updateOLED s)) <> (1 + 1) mod 4.
Proof. vm_compute. repeat split; try reflexivity. discriminate. Qed.

(** C3 (amended): on a fired tick whose new phase is 1 or 3 and which
    finds no slot to show, the phase moves on by one step within the tick,
    the cursor is back where it was and the slots are not searched again.
    From new phase 3 the tick ends in phase 0 on the built-in screen.  From
    new phase 1 the phase becomes 2 and the test of phase 2 runs in the same
    tick: the tick ends in phase 2 on the remote summary or, one more hop
    later, in phase 0 on the built-in screen, and always the latter when no
    summary was ever posted. *)
Theorem fallback_hops (s : State) :
  state_ok s = true -> oled_due s = true ->
  no_slot_shown (currentMillis s) (dimg s) = true ->
  let new := (displayCycle s + 1) mod 4 in
  new = 1 \/ new = 3 ->
  let r := observe (updateOLED s) in
  (new = 3 -> r = (0, [drawScreen1], displayActive s))
  /\ (new = 1 -> r = (2, [drawScreen2], displayActive s)
                 \/ r = (0, [drawScreen1], displayActive s))
  /\ (new = 1 -> display_last_set s = 0 -> r = (0, [drawScreen1], displayActive s)).
Proof.
  intros Hok Hdue Hnone new Hnew r. subst r.
  pose proof (state_ok_inv s Hok) as (Hcur & Hcyc & _).
  assert (Hobs : observe (updateOLED s)
                 = if (new =? 1) && summary_shown s
                   then (2, [drawScreen2], displayActive s)
                   else (0, [drawScreen1], displayActive s)).
  { unfold updateOLED. rewrite Hdue, oled_fire_observe by assumption. cbv zeta.
    rewrite (scan_slots_nothing _ _ _ Hcur (no_slot_shown_spec _ _ Hnone)).
    cbn [fst snd]. fold new.
    destruct Hnew as [-> | ->]; reflexivity. }
  rewrite Hobs. split; [| split].
  - intros ->. reflexivity.
  - intros ->. cbn [Z.eqb Pos.eqb andb]. destruct (summary_shown s); auto.
  - intros -> Hset. rewrite (summary_shown_never_set s Hset). reflexivity.
Qed.

(** An instance: the first tick after boot, at 5000 ms. *)
Lemma fallback_hops_witness :
  let s := set_currentMillis 5000 init_state in
  state_ok s = true /\ oled_due s = true
  /\ no_slot_shown (currentMillis s) (dimg s) = true
  /\ (displayCycle s + 1) mod 4 = 1
  /\ observe (updateOLED s) = (0, [drawScreen1], displayActive s).
Proof.
  cbv zeta.
  assert (Hok : state_ok (set_currentMillis 5000 init_state) = true) by reflexivity.
  assert (Hdue : oled_due (set_currentMillis 5000 init_state) = true) by reflexivity.
  assert (Hnone : no_slot_shown (currentMillis (set_currentMillis 5000 init_state))
                    (dimg (set_currentMillis 5000 init_state)) = true) by reflexivity.
  assert (Hnew : (displayCycle (set_currentMillis 5000 init_state) + 1) mod 4 = 1)
    by reflexivity.
  refine (conj Hok (conj Hdue (conj Hnone (conj Hnew _)))).
  exact (proj2 (proj2 (fallback_hops _ Hok Hdue Hnone (or_introl Hnew))) Hnew eq_refl).
Defined.

(** ** The slot search inside the display cycle *)

(** A fired tick whose new phase is 1 or 3 stores the cursor the search
    ends on, and draws the slot under it when the search found one. *)
Lemma updateOLED_search (s : State) :
  state_ok s = true -> oled_due s = true ->
  (displayCycle s + 1) mod 4 = 1 \/ (displayCycle s + 1) mod 4 = 3 ->
  let sc := scan_slots (Z.to_nat MAX_DISPLAY_IMG) (currentMillis s) (dimg s)
              (displayActive s) in
  displayActive (fst (updateOLED s)) = fst sc
  /\ (snd sc = true ->
      snd (updateOLED s) = [drawCustomScreen (fst sc)]
      /\ displayCycle (fst (updateOLED s)) = (displayCycle s + 1) mod 4)
  /\ (snd sc = false ->
      displayActive (fst (updateOLED s)) = displayActive s
      /\ forall c, ~ In (drawCustomScreen c) (snd (updateOLED s))).
Proof.
  intros Hok Hdue Hnew sc.
  pose proof (state_ok_inv s Hok) as (Hcur & Hcyc & _).
  pose proof (oled_fire_observe s Hcyc) as Hobs. cbv zeta in Hobs. fold sc in Hobs.
  assert (Hodd : ((displayCycle s + 1) mod 4 =? 1) || ((displayCycle s + 1) mod 4 =? 3)
                 = true).
  { destruct Hnew as [-> | ->]; reflexivity. }
  rewrite Hodd in Hobs. unfold updateOLED. rewrite Hdue. unfold observe in Hobs.
  destruct (snd sc) eqn:Hfound.
  - injection Hobs as Hphase Hdrawn Hcursor.
    split; [exact Hcursor |]. split; [intros _; split; assumption | discriminate].
  - assert (Hback : fst sc = displayActive s).
    { destruct (scan_slots_none_full (currentMillis s) (dimg s) (displayActive s) (fst sc) Hcur)
        as [Hsame _]; [| exact Hsame].
      subst sc. destruct (scan_slots _ _ _ _) as [c' found]. cbn [fst snd] in *.
      rewrite Hfound. reflexivity. }
    destruct (((displayCycle s + 1) mod 4 =? 1) && summary_shown s);
      injection Hobs as Hphase Hdrawn Hcursor; rewrite Hdrawn;
      (split; [exact Hcursor |]); (split; [discriminate |]); intros _;
      (split; [congruence |]); intros c [Hin | []]; discriminate.
Qed.

(** With no slot to show, a call of [updateOLED] leaves the cursor alone,
    due or not, whatever the phase. *)
Lemma updateOLED_cursor_kept (s : State) :
  state_ok s = true -> no_slot_shown (currentMillis s) (dimg s) = true ->
  displayActive (fst (updateOLED s)) = displayActive s.
Proof.
  intros Hok Hnone. pose proof (state_ok_inv s Hok) as (Hcur & Hcyc & _).
  unfold updateOLED. destruct (oled_due s); [| reflexivity].
  pose proof (oled_fire_observe s Hcyc) as Hobs. cbv zeta in Hobs.
  rewrite (scan_slots_nothing _ _ _ Hcur (no_slot_shown_spec _ _ Hnone)) in Hobs.
  cbn [fst snd] in Hobs. unfold observe in Hobs.
  repeat match type of Hobs with
         | context [if ?b then _ else _] => destruct b
         end; injection Hobs as _ _ ->; reflexivity.
Qed.

(** With exactly the slots 2, 7 and 15 to show, a fired tick whose new
    phase is 1 or 3 moves the cursor of the sketch to the next of them and
    draws it. *)
Lemma updateOLED_2_7_15 (s : State) (k : Z) :
  state_ok s = true -> oled_due s = true ->
  (displayCycle s + 1) mod 4 = 1 \/ (displayCycle s + 1) mod 4 = 3 ->
  (forall i, 0 <= i < MAX_DISPLAY_IMG ->
     slot_shown (currentMillis s) (dimg s) i = (i =? 2) || (i =? 7) || (i =? 15)) ->
  1 <= k <= MAX_DISPLAY_IMG ->
  (displayActive s + k = 2 \/ displayActive s + k = 7 \/ displayActive s + k = 15
   \/ displayActive s + k = 22) ->
  (forall j, 1 <= j < k ->
     displayActive s + j <> 2 /\ displayActive s + j <> 7 /\ displayActive s + j <> 15
     /\ displayActive s + j <> 22) ->
  snd (updateOLED s) = [drawCustomScreen ((displayActive s + k) mod MAX_DISPLAY_IMG)]
  /\ displayActive (fst (updateOLED s)) = (displayActive s + k) mod MAX_DISPLAY_IMG.
Proof.
  intros Hok Hdue Hnew Hpat Hk Hhit Hmiss.
  pose proof (state_ok_inv s Hok) as (Hcur & _).
  pose proof (updateOLED_search s Hok Hdue Hnew) as Hsearch. cbv zeta in Hsearch.
  rewrite (scan_slots_2_7_15 _ _ _ k Hpat Hcur Hk Hhit Hmiss) in Hsearch.
  cbn [fst snd] in Hsearch. destruct Hsearch as (Hcursor & Hfound & _).
  split; [apply Hfound; reflexivity | exact Hcursor].
Qed.

(** C5: the search of [updateOLED] visits the slots in increasing cyclic
    order from [cursor + 1]; it returns the first slot that is active and
    younger than the maximum age and leaves the cursor on it; when no slot
    qualifies it reports nothing found after all 20 slots, with the cursor
    back on its value before the scan, so that with no active slot the
    cursor never moves; with exactly the slots 2, 7 and 15 shown, successive
    calls return 2, 7, 15, 2.  The sketch runs this search from its global
    [displayActive] on every fired tick whose new phase is 1 or 3, stores
    the cursor the search ends on back into [displayActive] and draws the
    slot it found; no other call of [updateOLED] moves the cursor while no
    slot can be shown; and seven ticks after an upload to the slots 2, 7
    and 15 have drawn the slots 2, 7, 15 and 2 again, the built-in screen
    in between. *)
Theorem scan_slots_cyclic (now : Z) (d : list display_image) (cursor : Z) :
  0 <= cursor < MAX_DISPLAY_IMG ->
  let scan := scan_slots (Z.to_nat MAX_DISPLAY_IMG) now d in
  (forall c', scan cursor = (c', true) ->
     slot_shown now d c' = true
     /\ exists k, 1 <= k <= MAX_DISPLAY_IMG
        /\ c' = (cursor + k) mod MAX_DISPLAY_IMG
        /\ forall j, 1 <= j < k ->
             slot_shown now d ((cursor + j) mod MAX_DISPLAY_IMG) = false)
  /\ (forall c', scan cursor = (c', false) ->
        c' = cursor /\ forall i, 0 <= i < MAX_DISPLAY_IMG -> slot_shown now d i = false)
  /\ ((forall i, 0 <= i < MAX_DISPLAY_IMG -> slot_shown now d i = false) ->
        scan cursor = (cursor, false))
  /\ ((forall i, 0 <= i < MAX_DISPLAY_IMG ->
         slot_shown now d i = (i =? 2) || (i =? 7) || (i =? 15)) ->
        scan 0 = (2, true) /\ scan 2 = (7, true) /\ scan 7 = (15, true)
        /\ scan 15 = (2, true) /\ scan 19 = (2, true))
  /\ (forall i, 0 <= last_updated (dimg_at d i) <= now -> now < 2 ^ 32 ->
        slot_shown now d i = Spec.is_displayable d i now customDisplayMaxAge)
  /\ (forall s, state_ok s = true -> oled_due s = true ->
        (displayCycle s + 1) mod 4 = 1 \/ (displayCycle s + 1) mod 4 = 3 ->
        let sc := scan_slots (Z.to_nat MAX_DISPLAY_IMG) (currentMillis s) (dimg s)
                    (displayActive s) in
        displayActive (fst (updateOLED s)) = fst sc
        /\ (snd sc = true ->
            snd (updateOLED s) = [drawCustomScreen (fst sc)]
            /\ displayCycle (fst (updateOLED s)) = (displayCycle s + 1) mod 4)
        /\ (snd sc = false ->
            displayActive (fst (updateOLED s)) = displayActive s
            /\ forall c, ~ In (drawCustomScreen c) (snd (updateOLED s))))
  /\ (forall s, state_ok s = true ->
        no_slot_shown (currentMillis s) (dimg s) = true ->
        displayActive (fst (updateOLED s)) = displayActive s)
  /\ (forall s, state_ok s = true -> oled_due s = true ->
        (displayCycle s + 1) mod 4 = 1 \/ (displayCycle s + 1) mod 4 = 3 ->
        (forall i, 0 <= i < MAX_DISPLAY_IMG ->
           slot_shown (currentMillis s) (dimg s) i = (i =? 2) || (i =? 7) || (i =? 15)) ->
        (displayActive s = 0 ->
         snd (updateOLED s) = [drawCustomScreen 2] /\ displayActive (fst (updateOLED s)) = 2)
        /\ (displayActive s = 2 ->
            snd (updateOLED s) = [drawCustomScreen 7]
            /\ displayActive (fst (updateOLED s)) = 7)
        /\ (displayActive s = 7 ->
            snd (updateOLED s) = [drawCustomScreen 15]
            /\ displayActive (fst (updateOLED s)) = 15)
        /\ (displayActive s = 15 ->
            snd (updateOLED s) = [drawCustomScreen 2]
            /\ displayActive (fst (updateOLED s)) = 2))
  /\ snd (run_plain passes_rotation init_state)
     = [drawCustomScreen 2; drawScreen1; drawCustomScreen 7; drawScreen1;
        drawCustomScreen 15; drawScreen1; drawCustomScreen 2]
  /\ displayActive (fst (run_plain passes_rotation init_state)) = 2.
Proof.
  intros Hc scan. subst scan.
  split; [| split; [| split; [| split; [| split; [| split; [| split; [| split]]]]]]].
  - intros c' Hscan.
    destruct (scan_slots_found _ _ _ _ _ (proj1 Hc) Hscan) as [Hshown (k & Hk & Heq & Hb)].
    split; [assumption |]. exists k. repeat split; try assumption; try lia.
  - intros c'. apply scan_slots_none_full, Hc.
  - apply scan_slots_nothing, Hc.
  - intros Hpat.
    pose proof (scan_slots_2_7_15 now d 0 2 Hpat) as H0.
    pose proof (scan_slots_2_7_15 now d 2 5 Hpat) as H2.
    pose proof (scan_slots_2_7_15 now d 7 8 Hpat) as H7.
    pose proof (scan_slots_2_7_15 now d 15 7 Hpat) as H15.
    pose proof (scan_slots_2_7_15 now d 19 3 Hpat) as H19.
    unfold MAX_DISPLAY_IMG in *.
    repeat split; [apply H0 | apply H2 | apply H7 | apply H15 | apply H19]; lia.
  - intros i. apply slot_shown_is_displayable.
  - exact updateOLED_search.
  - exact updateOLED_cursor_kept.
  - intros s Hok Hdue Hnew Hpat.
    pose proof (updateOLED_2_7_15 s 2 Hok Hdue Hnew Hpat) as H0.
    pose proof (updateOLED_2_7_15 s 5 Hok Hdue Hnew Hpat) as H2.
    pose proof (updateOLED_2_7_15 s 8 Hok Hdue Hnew Hpat) as H7.
    pose proof (updateOLED_2_7_15 s 7 Hok Hdue Hnew Hpat) as H15.
    unfold MAX_DISPLAY_IMG in *.
    split; [| split; [| split]]; intros Hat; rewrite Hat in *;
      [apply H0 | apply H2 | apply H7 | apply H15]; lia.
  - split; vm_compute; reflexivity.
Qed.

(** An instance: after boot, with the slots 2, 7 and 15 switched on, the
    search started from cursor 0 goes 2, 7, 15 and back to 2; and the first
    tick of the sketch in that state draws slot 2 and leaves
    [displayActive] on 2. *)
Lemma scan_slots_cyclic_witness :
  0 <= 0 < MAX_DISPLAY_IMG
  /\ scan_slots (Z.to_nat MAX_DISPLAY_IMG) 1000 slots_2_7_15 0 = (2, true)
  /\ scan_slots (Z.to_nat MAX_DISPLAY_IMG) 1000 slots_2_7_15 2 = (7, true)
  /\ scan_slots (Z.to_nat MAX_DISPLAY_IMG) 1000 slots_2_7_15 7 = (15, true)
  /\ scan_slots (Z.to_nat MAX_DISPLAY_IMG) 1000 slots_2_7_15 15 = (2, true)
  /\ snd (updateOLED state_2_7_15) = [drawCustomScreen 2]
  /\ displayActive (fst (updateOLED state_2_7_15)) = 2.
Proof.
  assert (H0 : 0 <= 0 < MAX_DISPLAY_IMG) by (unfold MAX_DISPLAY_IMG; lia).
  split; [exact H0 |].
  destruct (scan_slots_cyclic 1000 slots_2_7_15 0 H0)
    as (_ & _ & _ & Hex & _ & _ & _ & Hrot & _).
  destruct Hex as (E0 & E2 & E7 & E15 & _).
  - intros i Hi.
    pose proof (Z_range_In 20 i Hi) as Hin. cbn in Hin.
    repeat (destruct Hin as [<- | Hin]; [reflexivity |]). contradiction.
  - destruct (Hrot state_2_7_15) as (R0 & _).
    + reflexivity.
    + reflexivity.
    + left. reflexivity.
    + intros i Hi.
      pose proof (Z_range_In 20 i Hi) as Hin. cbn in Hin.
      repeat (destruct Hin as [<- | Hin]; [reflexivity |]). contradiction.
    + destruct (R0 eq_refl) as [Rdraw Rcursor].
      exact (conj E0 (conj E2 (conj E7 (conj E15 (conj Rdraw Rcursor))))).
Defined.

(** ** The invariant of the sketch *)

Lemma state_ok_intro (s : State) :
  0 <= displayActive s < MAX_DISPLAY_IMG -> 0 <= displayCycle s < 4 ->
  slots_ok (dimg s) -> state_ok s = true.
Proof.
  intros Hcur Hcyc [Hlen Hall]. unfold state_ok. rewrite !andb_true_iff.
  repeat split; try (apply Z.leb_le; lia); try (apply Z.ltb_lt; lia).
  - apply Nat.eqb_eq, Hlen.
  - apply forallb_forall. intros im Him. apply Nat.eqb_eq.
    rewrite Forall_forall in Hall. apply Hall, list_elem_of_In, Him.
Qed.

Lemma state_ok_slots (s : State) : state_ok s = true -> slots_ok (dimg s).
Proof. intros H. apply state_ok_inv in H as (_ & _ & Hlen & Hall). split; assumption. Qed.

Lemma for_upto_invariant {S : Type} (P : S -> Prop) (body : Z -> S -> S) :
  (forall i s, P s -> P (body i s)) ->
  forall n i s, P s -> P (C.for_upto n i body s).
Proof.
  intros Hbody. induction n as [| n IH]; intros i s Hs; cbn [C.for_upto].
  - assumption.
  - apply IH, Hbody, Hs.
Qed.

Lemma length_list_byte_of_string (s : string) :
  length (list_byte_of_string s) = String.length s.
Proof.
  induction s as [| c s IH]; cbn; [reflexivity |]. f_equal. exact IH.
Qed.

Lemma zero_image_ok : length (display zero_image) = Z.to_nat DISPLAY_IMG_BYTE_LEN.
Proof. cbn [display zero_image]. apply repeat_length. Qed.

Lemma dimg_at_ok (d : list display_image) (i : Z) :
  slots_ok d -> length (display (dimg_at d i)) = Z.to_nat DISPLAY_IMG_BYTE_LEN.
Proof.
  intros [_ Hall]. unfold dimg_at.
  destruct (d !! Z.to_nat i) as [im |] eqn:E; cbn [default].
  - rewrite Forall_lookup in Hall. apply (Hall _ _ E).
  - apply zero_image_ok.
Qed.

Lemma slots_ok_insert (d : list display_image) (i : nat) (im : display_image) :
  slots_ok d -> length (display im) = Z.to_nat DISPLAY_IMG_BYTE_LEN ->
  slots_ok (<[i := im]> d).
Proof.
  intros [Hlen Hall] Him. split.
  - rewrite length_insert. exact Hlen.
  - apply Forall_insert; assumption.
Qed.

(** A full-length payload overwrites the whole bitmap and nothing else. *)
Lemma memcpy_full (dst : list Byte.byte) (payload : string) :
  length dst = Z.to_nat DISPLAY_IMG_BYTE_LEN ->
  strlen payload = DISPLAY_IMG_BYTE_LEN ->
  memcpy dst (c_str payload) DISPLAY_IMG_BYTE_LEN = list_byte_of_string payload.
Proof.
  intros Hdst Hlen. unfold memcpy, c_str.
  assert (Hb : length (list_byte_of_string payload) = Z.to_nat DISPLAY_IMG_BYTE_LEN).
  { rewrite length_list_byte_of_string. unfold strlen in Hlen. lia. }
  rewrite <- Hb at 1. rewrite take_app_length.
  rewrite drop_ge by lia. apply app_nil_r.
Qed.

Lemma upload_slot_ok (req : Request) (now i : Z) (acc : list display_image * string) :
  slots_ok (fst acc) -> slots_ok (fst (upload_slot req now i acc)).
Proof.
  destruct acc as [d retval]. cbn [fst]. intros Hok. unfold upload_slot.
  destruct (negb (hasArg req _)); [exact Hok |].
  destruct (strlen _ =? 0).
  { cbn [fst]. apply slots_ok_insert; [exact Hok |]. apply dimg_at_ok, Hok. }
  destruct (strlen _ =? DISPLAY_IMG_BYTE_LEN) eqn:Hlen; cbn [negb fst].
  - unfold set_slot_last_updated, set_slot_active.
    assert (H1 : slots_ok (copy_slot_display i (c_str (arg req ("d" ++ String_of_int i)))
                             DISPLAY_IMG_BYTE_LEN d)).
    { apply slots_ok_insert; [exact Hok |]. cbn [display].
      rewrite memcpy_full.
      - rewrite length_list_byte_of_string. apply Z.eqb_eq in Hlen.
        unfold strlen in Hlen. lia.
      - apply dimg_at_ok, Hok.
      - apply Z.eqb_eq, Hlen. }
    set (d1 := copy_slot_display _ _ _ _) in *.
    assert (H2 : slots_ok (<[Z.to_nat i := {| display := display (dimg_at d1 i);
                              active := true; last_updated := last_updated (dimg_at d1 i) |}]> d1)).
    { apply slots_ok_insert; [exact H1 |]. apply dimg_at_ok, H1. }
    apply slots_ok_insert; [exact H2 |]. apply dimg_at_ok, H2.
  - apply slots_ok_insert; [exact Hok |]. apply dimg_at_ok, Hok.
Qed.

Lemma HandleDisplayUpload_ok (req : Request) (s : State) :
  state_ok s = true -> state_ok (fst (HandleDisplayUpload req s)) = true.
Proof.
  intros Hok. pose proof (state_ok_inv s Hok) as (Hcur & Hcyc & _).
  unfold HandleDisplayUpload.
  pose proof (for_upto_invariant (fun acc => slots_ok (fst acc))
                (upload_slot req (currentMillis s)) (upload_slot_ok req (currentMillis s))
                (Z.to_nat MAX_DISPLAY_IMG) 0
                (dimg s, ("Screen Update Results:" ++ LF)%string)
                (state_ok_slots s Hok)) as Hloop.
  destruct (C.for_upto _ _ _ _) as [d retval]. cbn [fst] in *.
  apply state_ok_intro; destruct s; assumption.
Qed.

Lemma HandleDisplaySet_ok (req : Request) (s : State) :
  state_ok s = true -> state_ok (fst (HandleDisplaySet req s)) = true.
Proof.
  intros Hok. unfold HandleDisplaySet.
  destruct (hasArg req "oledInterval"); destruct s; exact Hok.
Qed.

Lemma handleClient_ok (f : spec_float -> string) (mac : string) (cfg : Config)
    (req : Request) (s : State) :
  state_ok s = true -> state_ok (fst (handleClient f mac cfg req s)) = true.
Proof.
  intros Hok. unfold handleClient, HandleRoot, HandleNotFound.
  destruct (method req);
    repeat match goal with
           | |- context [if ?b then _ else _] => destruct b
           end; cbn [fst]; try exact Hok.
  - apply HandleDisplaySet_ok, Hok.
  - apply HandleDisplayUpload_ok, Hok.
Qed.

Lemma scan_slots_range (n : nat) (now : Z) (d : list display_image) :
  forall c, 0 <= c < MAX_DISPLAY_IMG ->
  0 <= fst (scan_slots n now d c) < MAX_DISPLAY_IMG.
Proof.
  induction n as [| n IH]; intros c Hc; cbn [scan_slots].
  - exact Hc.
  - destruct (slot_shown _ _ _).
    + apply rem_step_range. lia.
    + apply IH, rem_step_range. lia.
Qed.

Lemma oled_fire_ok (s : State) :
  state_ok s = true -> state_ok (fst (oled_fire s)) = true.
Proof.
  intros Hok. pose proof (state_ok_inv s Hok) as (Hcur & Hcyc & _).
  pose proof (oled_fire_observe s Hcyc) as Hobs.
  pose proof (oled_fire_frame s) as (_ & _ & _ & _ & _ & Hd).
  pose proof (scan_slots_range (Z.to_nat MAX_DISPLAY_IMG) (currentMillis s) (dimg s)
                (displayActive s) Hcur) as Hscan.
  pose proof (Z.mod_pos_bound (displayCycle s + 1) 4 ltac:(lia)) as Hnew.
  cbv zeta in Hobs. unfold observe in Hobs.
  apply state_ok_intro.
  - repeat match type of Hobs with
           | context [if ?b then _ else _] => destruct b
           end; injection Hobs as _ _ ->; assumption.
  - repeat match type of Hobs with
           | context [if ?b then _ else _] => destruct b
           end; injection Hobs as -> _ _; lia.
  - rewrite Hd. apply state_ok_slots, Hok.
Qed.

Lemma updateOLED_ok (s : State) :
  state_ok s = true -> state_ok (fst (updateOLED s)) = true.
Proof.
  intros Hok. unfold updateOLED. destruct (oled_due s); [| exact Hok].
  apply oled_fire_ok, Hok.
Qed.

Lemma updateOLED_draws_in_bounds (s : State) :
  state_ok s = true -> Forall draw_in_bounds (snd (updateOLED s)).
Proof.
  intros Hok. pose proof (state_ok_inv s Hok) as (Hcur & Hcyc & _).
  pose proof (state_ok_inv _ (updateOLED_ok s Hok)) as (Hcur' & _).
  unfold updateOLED in *. destruct (oled_due s); [| constructor].
  destruct (oled_fire_draws_once s Hcyc (proj1 Hcur)) as (a & -> & Ha).
  constructor; [| constructor].
  destruct a; cbn; try exact I. destruct Ha as (_ & -> & _). exact Hcur'.
Qed.

Lemma loop_ok (f : spec_float -> string) (mac : string) (cfg : Config)
    (hw : Hardware) (client : option Request) (s : State) :
  state_ok s = true ->
  state_ok (fst (fst (loop f mac cfg hw client s))) = true
  /\ Forall draw_in_bounds (snd (fst (loop f mac cfg hw client s))).
Proof.
  intros Hok. unfold loop.
  set (s1 := set_sensors _ (set_sensors _ (set_sensors _ (set_sensors _ _)))).
  assert (H1 : state_ok s1 = true) by (destruct s; exact Hok).
  pose proof (updateOLED_ok s1 H1) as H2.
  pose proof (updateOLED_draws_in_bounds s1 H1) as H3.
  destruct (updateOLED s1) as [s2 drawn]. cbn [fst snd] in *.
  destruct client as [req |]; cbn [fst snd].
  - pose proof (handleClient_ok f mac cfg req s2 H2) as H4.
    destruct (handleClient f mac cfg req s2) as [s3 r]. cbn [fst snd] in *. auto.
  - auto.
Qed.

Lemma run_ok (f : spec_float -> string) (mac : string) (cfg : Config)
    (passes : list (Hardware * option Request)) :
  forall s, state_ok s = true ->
  state_ok (fst (run f mac cfg passes s)) = true
  /\ Forall draw_in_bounds (snd (run f mac cfg passes s)).
Proof.
  induction passes as [| [hw client] rest IH]; intros s Hok; cbn [run].
  - split; [exact Hok | constructor].
  - destruct (loop_ok f mac cfg hw client s Hok) as [H1 H2].
    destruct (loop f mac cfg hw client s) as [[s1 drawn] r]. cbn [fst snd] in *.
    destruct (IH s1 H1) as [H3 H4].
    destruct (run f mac cfg rest s1) as [s2 drawn']. cbn [fst snd] in *.
    split; [exact H3 |]. apply Forall_app. split; assumption.
Qed.

Lemma handleClient_cursor (f : spec_float -> string) (mac : string) (cfg : Config)
    (req : Request) (s : State) :
  displayActive (fst (handleClient f mac cfg req s)) = displayActive s.
Proof.
  unfold handleClient, HandleRoot, HandleNotFound, HandleDisplaySet, HandleDisplayUpload.
  destruct (method req);
    repeat match goal with
           | |- context [if ?b then _ else _] => destruct b
           | |- context [C.for_upto ?n ?i ?b ?a] => destruct (C.for_upto n i b a)
           end; destruct s; reflexivity.
Qed.

(** C10: the cursor [displayActive] starts at 0 and stays in [0, 20) over
    any sequence of passes of [loop], with or without HTTP requests: the
    requests never write it, and every iteration of the search replaces a
    cursor [c >= 0] by [(c + 1) % 20], the index it then reads; the slot
    array keeps its 20 entries, and every index handed to
    [drawCustomScreen] lies inside it. *)
Theorem displayActive_in_bounds (f : spec_float -> string) (mac : string) (cfg : Config)
    (passes : list (Hardware * option Request)) :
  let s := fst (run f mac cfg passes init_state) in
  let drawn := snd (run f mac cfg passes init_state) in
  displayActive init_state = 0
  /\ 0 <= displayActive s < MAX_DISPLAY_IMG
  /\ length (dimg s) = Z.to_nat MAX_DISPLAY_IMG
  /\ (exists im, dimg s !! Z.to_nat (displayActive s) = Some im
                 /\ dimg_at (dimg s) (displayActive s) = im)
  /\ Forall draw_in_bounds drawn
  /\ (forall req s0, displayActive (fst (handleClient f mac cfg req s0)) = displayActive s0)
  /\ (forall c, 0 <= c ->
        C.rem (c + 1) MAX_DISPLAY_IMG = (c + 1) mod MAX_DISPLAY_IMG
        /\ 0 <= C.rem (c + 1) MAX_DISPLAY_IMG < MAX_DISPLAY_IMG).
Proof.
  intros s drawn.
  destruct (run_ok f mac cfg passes init_state eq_refl) as [Hok Hdrawn].
  fold s in Hok. fold drawn in Hdrawn.
  apply state_ok_inv in Hok as (Hcur & _ & Hlen & _).
  split; [reflexivity |]. split; [exact Hcur |]. split; [exact Hlen |].
  split; [| split; [exact Hdrawn | split]].
  - destruct (lookup_lt_is_Some_2 (dimg s) (Z.to_nat (displayActive s))) as [im Him].
    { rewrite Hlen. unfold MAX_DISPLAY_IMG in *. lia. }
    exists im. split; [exact Him |]. unfold dimg_at. rewrite Him. reflexivity.
  - intros req s0. apply handleClient_cursor.
  - intros c Hc. split; [apply rem_step | apply rem_step_range]; exact Hc.
Qed.

(** ** Uploading bitmaps *)

Lemma append_assoc (a b c : string) : ((a ++ b) ++ c)%string = (a ++ (b ++ c))%string.
Proof. induction a as [| x a IH]; cbn; [reflexivity | f_equal; exact IH]. Qed.

Lemma append_empty_r (a : string) : (a ++ EmptyString)%string = a.
Proof. induction a as [| x a IH]; cbn; [reflexivity | f_equal; exact IH]. Qed.

Lemma for_upto_split {S : Type} (body : Z -> S -> S) (m : nat) :
  forall n i s,
  C.for_upto (n + m) i body s = C.for_upto m (i + Z.of_nat n) body (C.for_upto n i body s).
Proof.
  induction n as [| n IH]; intros i s.
  - cbn [Nat.add C.for_upto]. f_equal. lia.
  - cbn [Nat.add C.for_upto]. rewrite IH. f_equal. lia.
Qed.

Lemma hasArg_find (req : Request) (name : string) :
  hasArg req name = match find_arg name (args req) with Some _ => true | None => false end.
Proof. reflexivity. Qed.

(** An iteration of the loop writes slot [i] only and only appends to
    the report. *)
Lemma upload_slot_other (req : Request) (now i : Z) (acc : list display_image * string)
    (j : nat) :
  Z.to_nat i <> j -> fst (upload_slot req now i acc) !! j = fst acc !! j.
Proof.
  intros Hne. destruct acc as [d retval]. unfold upload_slot.
  destruct (negb (hasArg req _)); [reflexivity |].
  destruct (strlen _ =? 0); cbn [fst].
  { apply list_lookup_insert_ne, Hne. }
  destruct (negb _); cbn [fst].
  { apply list_lookup_insert_ne, Hne. }
  unfold set_slot_last_updated, set_slot_active, copy_slot_display.
  rewrite !list_lookup_insert_ne by exact Hne. reflexivity.
Qed.

Lemma upload_slot_appends (req : Request) (now i : Z) (acc : list display_image * string) :
  exists suffix, snd (upload_slot req now i acc) = (snd acc ++ suffix)%string.
Proof.
  destruct acc as [d retval]. unfold upload_slot.
  destruct (negb (hasArg req _)).
  { exists EmptyString. cbn [snd]. symmetry. apply append_empty_r. }
  destruct (strlen _ =? 0); [cbn [snd]; eauto |].
  destruct (negb _); cbn [snd]; eauto.
Qed.

Lemma upload_loop_other (req : Request) (now : Z) (j : nat) :
  forall n i acc, 0 <= i ->
  (j < Z.to_nat i \/ Z.to_nat i + n <= j)%nat ->
  fst (C.for_upto n i (upload_slot req now) acc) !! j = fst acc !! j.
Proof.
  induction n as [| n IH]; intros i acc Hi Hj; cbn [C.for_upto]; [reflexivity |].
  rewrite IH by lia. apply upload_slot_other. lia.
Qed.

Lemma upload_loop_appends (req : Request) (now : Z) :
  forall n i acc,
  exists suffix,
    snd (C.for_upto n i (upload_slot req now) acc) = (snd acc ++ suffix)%string.
Proof.
  induction n as [| n IH]; intros i acc; cbn [C.for_upto].
  - exists EmptyString. symmetry. apply append_empty_r.
  - destruct (IH (i + 1) (upload_slot req now i acc)) as [s2 H2].
    destruct (upload_slot_appends req now i acc) as [s1 H1].
    exists (s1 ++ s2)%string. rewrite H2, H1. apply append_assoc.
Qed.

Lemma dimg_at_lookup (d d' : list display_image) (i : Z) :
  d' !! Z.to_nat i = d !! Z.to_nat i -> dimg_at d' i = dimg_at d i.
Proof. intros H. unfold dimg_at. rewrite H. reflexivity. Qed.

Lemma dimg_at_insert (d : list display_image) (i : Z) (im : display_image) :
  (Z.to_nat i < length d)%nat -> dimg_at (<[Z.to_nat i := im]> d) i = im.
Proof.
  intros H. unfold dimg_at. rewrite list_lookup_insert_eq by exact H. reflexivity.
Qed.

Lemma u32_i32 (z : Z) : C.u32 (C.i32 z) = C.u32 z.
Proof.
  unfold C.u32, C.i32.
  replace ((z + 2 ^ 31) mod 2 ^ 32 - 2 ^ 31)
    with ((z + 2 ^ 31) mod 2 ^ 32 + - 2 ^ 31) by lia.
  rewrite Zplus_mod_idemp_l. f_equal. lia.
Qed.

Lemma i32_small (z : Z) : 0 <= z < 2 ^ 31 -> C.i32 z = z.
Proof. intros H. unfold C.i32. rewrite Z.mod_small; lia. Qed.

Lemma upload_slot_outcome (req : Request) (now i : Z) (d : list display_image)
    (retval : string) :
  slots_ok d -> (Z.to_nat i < length d)%nat ->
  slot_outcome req now i (dimg_at d i)
    (dimg_at (fst (upload_slot req now i (d, retval))) i)
    (fun line => snd (upload_slot req now i (d, retval)) = (retval ++ line)%string).
Proof.
  intros Hok Hi. unfold slot_outcome, upload_slot. rewrite hasArg_find. unfold arg.
  destruct (find_arg _ (args req)) as [payload |]; cbn [negb from_option id];
    [| reflexivity].
  destruct (strlen payload =? 0); cbn [fst snd].
  { unfold set_slot_active. rewrite dimg_at_insert by exact Hi. cbn. auto. }
  destruct (strlen payload =? DISPLAY_IMG_BYTE_LEN) eqn:Hlen; cbn [negb fst snd].
  - unfold set_slot_last_updated, set_slot_active, copy_slot_display.
    rewrite !dimg_at_insert by (rewrite ?length_insert; exact Hi).
    cbn [display active last_updated].
    rewrite memcpy_full.
    + repeat split; try reflexivity; [apply u32_i32 | apply i32_small].
    + apply dimg_at_ok, Hok.
    + apply Z.eqb_eq, Hlen.
  - unfold set_slot_active. rewrite dimg_at_insert by exact Hi. cbn. auto.
Qed.

Lemma slot_outcome_said (req : Request) (now i : Z) (old new : display_image)
    (said said' : string -> Prop) :
  (forall line, said line -> said' line) ->
  slot_outcome req now i old new said -> slot_outcome req now i old new said'.
Proof.
  intros Himp. unfold slot_outcome.
  destruct (find_arg _ (args req)) as [payload |]; [| exact (fun H => H)].
  destruct (strlen payload =? 0).
  { intros (H1 & H2 & H3 & H4). auto. }
  destruct (strlen payload =? DISPLAY_IMG_BYTE_LEN).
  - intros (H1 & H2 & H3 & H4 & H5 & H6). repeat split; auto.
  - intros (H1 & H2 & H3 & H4). auto.
Qed.

(** The whole loop, seen from slot [i]: the iterations before and after
    it leave the slot alone and only add to the report. *)
Lemma upload_loop_outcome (req : Request) (now : Z) (d : list display_image)
    (header : string) (i : Z) :
  slots_ok d -> 0 <= i < MAX_DISPLAY_IMG ->
  let acc := C.for_upto (Z.to_nat MAX_DISPLAY_IMG) 0 (upload_slot req now) (d, header) in
  slot_outcome req now i (dimg_at d i) (dimg_at (fst acc) i)
    (fun line => exists pre post, snd acc = (pre ++ line ++ post)%string).
Proof.
  intros Hok Hi acc. subst acc.
  set (body := upload_slot req now).
  set (k := Z.to_nat i).
  assert (Hk : (k < 20)%nat) by (unfold MAX_DISPLAY_IMG in Hi; lia).
  assert (Hsplit : C.for_upto (Z.to_nat MAX_DISPLAY_IMG) 0 body (d, header)
                   = C.for_upto (19 - k) (i + 1) body
                       (body i (C.for_upto k 0 body (d, header)))).
  { replace (Z.to_nat MAX_DISPLAY_IMG) with (k + S (19 - k))%nat
      by (unfold MAX_DISPLAY_IMG; lia).
    rewrite for_upto_split. cbn [C.for_upto].
    replace (0 + Z.of_nat k) with i by lia. reflexivity. }
  rewrite Hsplit.
  pose proof (upload_loop_other req now k k 0 (d, header) ltac:(lia) ltac:(lia)) as Hbefore.
  pose proof (for_upto_invariant (fun acc => slots_ok (fst acc)) body
                (upload_slot_ok req now) k 0 (d, header) Hok) as Hok1.
  destruct (upload_loop_appends req now k 0 (d, header)) as [suf1 Happ1].
  fold body in Hbefore, Happ1.
  destruct (C.for_upto k 0 body (d, header)) as [d1 r1]. cbn [fst snd] in *.
  assert (Hlen1 : (Z.to_nat i < length d1)%nat).
  { destruct Hok1 as [-> _]. unfold MAX_DISPLAY_IMG. lia. }
  pose proof (upload_slot_outcome req now i d1 r1 Hok1 Hlen1) as Hat.
  fold body in Hat.
  pose proof (upload_loop_other req now k (19 - k) (i + 1) (body i (d1, r1))
                ltac:(lia) ltac:(lia)) as Hafter.
  destruct (upload_loop_appends req now (19 - k) (i + 1) (body i (d1, r1))) as [suf3 Happ3].
  fold body in Hafter, Happ3.
  rewrite (dimg_at_lookup _ _ i Hafter).
  rewrite <- (dimg_at_lookup _ _ i Hbefore).
  revert Hat. apply slot_outcome_said.
  intros line Hline. exists r1, suf3. rewrite Happ3, Hline. apply append_assoc.
Qed.

(** C4: what [HandleDisplayUpload] does to slot [i] depends on the field
    [d<i>] alone, whatever else the request carries.  An empty payload
    switches the slot off, keeps its bytes and reports success; a payload
    of another length than 1024 switches the slot off, copies nothing and
    reports the invalid length; a payload of 1024 bytes is copied into the
    bitmap, switches the slot on, stores the 32 bits of [currentMillis] in
    [last_updated] and reports success.  An absent field leaves the slot as
    it was, and the answer is always a 200. *)
Theorem HandleDisplayUpload_slot (req : Request) (s : State) (i : Z) :
  state_ok s = true -> 0 <= i < MAX_DISPLAY_IMG ->
  let name := ("d" ++ String_of_int i)%string in
  let now := currentMillis s in
  let old := dimg_at (dimg s) i in
  let r := snd (HandleDisplayUpload req s) in
  let new := dimg_at (dimg (fst (HandleDisplayUpload req s))) i in
  status r = 200
  /\ match find_arg name (args req) with
     | None => new = old
     | Some payload =>
         if strlen payload =? 0 then
           active new = false /\ display new = display old
           /\ last_updated new = last_updated old
           /\ reported ("SUCCESS: " ++ name ++ " emptied." ++ LF) r
         else if strlen payload =? DISPLAY_IMG_BYTE_LEN then
           display new = list_byte_of_string payload /\ active new = true
           /\ last_updated new = C.i32 now /\ C.u32 (last_updated new) = C.u32 now
           /\ (0 <= now < 2 ^ 31 -> last_updated new = now)
           /\ reported ("SUCCESS: " ++ name ++ " updated." ++ LF) r
         else
           active new = false /\ display new = display old
           /\ last_updated new = last_updated old
           /\ reported ("ERROR: " ++ name ++ " invalid length." ++ LF) r
     end.
Proof.
  intros Hok Hi name now old r new.
  pose proof (upload_loop_outcome req now (dimg s) ("Screen Update Results:" ++ LF)%string i
                (state_ok_slots s Hok) Hi) as Hloop.
  cbv zeta in Hloop. subst r new. unfold HandleDisplayUpload. fold now.
  destruct (C.for_upto _ _ _ _) as [d retval]. cbn [fst snd] in *.
  split; [reflexivity |].
  replace (dimg (set_dimg d s)) with d by (destruct s; reflexivity).
  exact Hloop.
Qed.

(** An instance: after boot, a full bitmap in [d3] switches slot 3 on and
    becomes its bitmap. *)
Lemma HandleDisplayUpload_slot_witness :
  state_ok init_state = true /\ 0 <= 3 < MAX_DISPLAY_IMG
  /\ active (dimg_at (dimg (fst (HandleDisplayUpload upload_3_4_5 init_state))) 3) = true
  /\ display (dimg_at (dimg (fst (HandleDisplayUpload upload_3_4_5 init_state))) 3)
     = list_byte_of_string bitmap_1024.
Proof.
  assert (Hok : state_ok init_state = true) by reflexivity.
  assert (Hi : 0 <= 3 < MAX_DISPLAY_IMG) by (unfold MAX_DISPLAY_IMG; lia).
  refine (conj Hok (conj Hi _)).
  pose proof (HandleDisplayUpload_slot upload_3_4_5 init_state 3 Hok Hi) as H.
  cbv zeta in H. destruct H as [_ H].
  change (find_arg ("d" ++ String_of_int 3) (args upload_3_4_5))
    with (Some bitmap_1024) in H.
  change (strlen bitmap_1024 =? 0) with false in H.
  change (strlen bitmap_1024 =? DISPLAY_IMG_BYTE_LEN) with true in H.
  cbv iota in H. destruct H as (Hd & Ha & _). exact (conj Ha Hd).
Defined.

(** ** The remote summary *)

(** C8: a POST to [/setscreen2] reaches [HandleDisplaySet]; each of the
    six fields present in the request replaces the stored string, a present
    [oledInterval] replaces the stored interval (by its [atoi] value), every
    absent field keeps its value, [display_last_set] takes [currentMillis]
    whatever the request carries, nothing else changes, and the answer is
    always 200 "Thank you."; posting [watt = 5] at 100 ms and then
    [wattavg = 6] at 200 ms leaves [watt = 5], [wattavg = 6] and
    [display_last_set = 200]. *)
Theorem HandleDisplaySet_effect (f : spec_float -> string) (mac : string) (cfg : Config)
    (fields : list (string * string)) (s : State) :
  let req := post "/setscreen2" fields in
  let s' := fst (HandleDisplaySet req s) in
  handleClient f mac cfg req s = HandleDisplaySet req s
  /\ snd (HandleDisplaySet req s)
     = {| status := 200; content_type := "text/html"; body := "Thank you." ++ LF |}
  /\ display_last_set s' = currentMillis s
  /\ custom_watt (custom s') = field_after req "watt" (custom_watt (custom s))
  /\ custom_wattavg (custom s') = field_after req "wattavg" (custom_wattavg (custom s))
  /\ custom_water (custom s') = field_after req "water" (custom_water (custom s))
  /\ custom_watertoday (custom s')
     = field_after req "watertoday" (custom_watertoday (custom s))
  /\ custom_garage (custom s') = field_after req "garage" (custom_garage (custom s))
  /\ custom_garagetime (custom s')
     = field_after req "garagetime" (custom_garagetime (custom s))
  /\ oledInterval s'
     = match find_arg "oledInterval" fields with
       | Some v => C.u32 (atoi v)
       | None => oledInterval s
       end
  /\ currentMillis s' = currentMillis s /\ previousOled s' = previousOled s
  /\ sensors s' = sensors s /\ dimg s' = dimg s
  /\ displayActive s' = displayActive s /\ displayCycle s' = displayCycle s
  /\ custom_watt (custom after_two_posts) = "5"%string
  /\ custom_wattavg (custom after_two_posts) = "6"%string
  /\ display_last_set after_two_posts = 200
  /\ display_last_set (fst (HandleDisplaySet (post "/setscreen2" [])
                              (set_currentMillis 300 init_state))) = 300.
Proof.
  intros req s'. subst req s'.
  split; [reflexivity |].
  unfold HandleDisplaySet, field_after, hasArg, arg, post. cbn [args].
  destruct s as [now last_set interval prev sn cu d cursor cycle].
  destruct cu as [watt wattavg water watertoday garage garagetime].
  destruct (find_arg "oledInterval" fields);
    cbn -[atoi C.u32 find_arg]; repeat split;
    try reflexivity; destruct (find_arg _ fields); reflexivity.
Qed.

(** ** The metrics page *)

Ltac normalize_append :=
  repeat first [rewrite !append_assoc | progress cbn [String.append]].

Lemma join_filter_cons {A : Type} (g : A -> string) (p : A -> bool) (x : A) (l : list A) :
  fold_right String.append EmptyString (map g (List.filter p (x :: l)))
  = ((if p x then g x else EmptyString)
     ++ fold_right String.append EmptyString (map g (List.filter p l)))%string.
Proof. cbn [List.filter]. destruct (p x); reflexivity. Qed.

Section MetricsSteps.

Variable f : spec_float -> string.
Variable mac : string.
Variable cfg : Config.
Variable s : State.

(** Each guarded group appends the block of its quantity, or nothing. *)
Lemma metrics_pm_block (m : string) :
  metrics_pm mac cfg (sensors s) m = (m ++ Spec.shown f mac cfg s Spec.q_pm)%string.
Proof.
  unfold Spec.shown, metrics_pm, idString. cbn [Spec.capable Spec.non_negative Spec.block].
  destruct (hasPM cfg && _); [| symmetry; apply append_empty_r].
  unfold Spec.gauge, Spec.labels. cbv zeta. normalize_append. reflexivity.
Qed.

Lemma metrics_nox_block (m : string) :
  metrics_nox mac cfg (sensors s) m = (m ++ Spec.shown f mac cfg s Spec.q_nox)%string.
Proof.
  unfold Spec.shown, metrics_nox, idString. cbn [Spec.capable Spec.non_negative Spec.block].
  destruct (hasSGP41 cfg && _); [| symmetry; apply append_empty_r].
  unfold Spec.gauge, Spec.labels. cbv zeta. normalize_append. reflexivity.
Qed.

Lemma metrics_tvoc_block (m : string) :
  metrics_tvoc mac cfg (sensors s) m = (m ++ Spec.shown f mac cfg s Spec.q_tvoc)%string.
Proof.
  unfold Spec.shown, metrics_tvoc, idString. cbn [Spec.capable Spec.non_negative Spec.block].
  destruct (hasSGP41 cfg && _); [| symmetry; apply append_empty_r].
  unfold Spec.gauge, Spec.labels. cbv zeta. normalize_append. reflexivity.
Qed.

Lemma metrics_rco2_block (m : string) :
  metrics_rco2 mac cfg (sensors s) m = (m ++ Spec.shown f mac cfg s Spec.q_rco2)%string.
Proof.
  unfold Spec.shown, metrics_rco2, idString. cbn [Spec.capable Spec.non_negative Spec.block].
  destruct (hasCO2 cfg && _); [| symmetry; apply append_empty_r].
  unfold Spec.gauge, Spec.labels. cbv zeta. normalize_append. reflexivity.
Qed.

Lemma metrics_atmp_block (m : string) :
  metrics_atmp f mac cfg (sensors s) m = (m ++ Spec.shown f mac cfg s Spec.q_atmp)%string.
Proof.
  unfold Spec.shown, metrics_atmp, idString. cbn [Spec.capable Spec.non_negative Spec.block].
  destruct (hasSHT cfg && _); [| symmetry; apply append_empty_r].
  unfold Spec.gauge, Spec.labels. cbv zeta. normalize_append. reflexivity.
Qed.

Lemma metrics_rhum_block (m : string) :
  metrics_rhum mac cfg (sensors s) m = (m ++ Spec.shown f mac cfg s Spec.q_rhum)%string.
Proof.
  unfold Spec.shown, metrics_rhum, idString. cbn [Spec.capable Spec.non_negative Spec.block].
  destruct (hasSHT cfg && _); [| symmetry; apply append_empty_r].
  unfold Spec.gauge, Spec.labels. cbv zeta. normalize_append. reflexivity.
Qed.

Lemma metrics_uptime_block (m : string) :
  metrics_uptime mac cfg s m = (m ++ Spec.uptime_block mac cfg s)%string.
Proof.
  unfold Spec.shown, metrics_uptime, Spec.uptime_block, Spec.gauge, Spec.labels, idString.
  cbv zeta. normalize_append. reflexivity.
Qed.

Lemma GenerateMetrics_shown :
  GenerateMetrics f mac cfg s
  = (Spec.shown f mac cfg s Spec.q_pm ++ Spec.shown f mac cfg s Spec.q_nox
     ++ Spec.shown f mac cfg s Spec.q_tvoc ++ Spec.shown f mac cfg s Spec.q_rco2
     ++ Spec.shown f mac cfg s Spec.q_atmp ++ Spec.shown f mac cfg s Spec.q_rhum
     ++ Spec.uptime_block mac cfg s)%string.
Proof.
  unfold GenerateMetrics. cbv zeta.
  rewrite metrics_uptime_block, metrics_rhum_block, metrics_atmp_block,
    metrics_rco2_block, metrics_tvoc_block, metrics_nox_block, metrics_pm_block.
  rewrite !append_assoc. reflexivity.
Qed.

Lemma GenerateMetrics_metrics : GenerateMetrics f mac cfg s = Spec.metrics f mac cfg s.
Proof.
  rewrite GenerateMetrics_shown.
  unfold Spec.metrics, Spec.emitted, Spec.quantities.
  rewrite !join_filter_cons. cbn [List.filter map fold_right].
  fold (Spec.shown f mac cfg s Spec.q_pm) (Spec.shown f mac cfg s Spec.q_nox)
    (Spec.shown f mac cfg s Spec.q_tvoc) (Spec.shown f mac cfg s Spec.q_rco2)
    (Spec.shown f mac cfg s Spec.q_atmp) (Spec.shown f mac cfg s Spec.q_rhum).
  rewrite append_empty_r, !append_assoc. reflexivity.
Qed.

End MetricsSteps.

(** C9: the page [GenerateMetrics] builds is the blocks of the quantities
    whose capability flag is set and whose current value is non-negative,
    in the fixed order aqi/pm025, nox, tvoc, rco2, atmp, rhum, followed by
    the uptimesec block, which is always there; a quantity that fails the
    test leaves no text at all. *)
Theorem GenerateMetrics_blocks (f : spec_float -> string) (mac : string) (cfg : Config)
    (s : State) (q : Spec.quantity) :
  GenerateMetrics f mac cfg s
  = (Spec.shown f mac cfg s Spec.q_pm ++ Spec.shown f mac cfg s Spec.q_nox
     ++ Spec.shown f mac cfg s Spec.q_tvoc ++ Spec.shown f mac cfg s Spec.q_rco2
     ++ Spec.shown f mac cfg s Spec.q_atmp ++ Spec.shown f mac cfg s Spec.q_rhum
     ++ Spec.uptime_block mac cfg s)%string
  /\ Spec.shown f mac cfg s q
     = (if Spec.capable cfg q && Spec.non_negative s q
        then Spec.block f mac cfg s q else EmptyString)
  /\ GenerateMetrics f mac cfg s = Spec.metrics f mac cfg s
  /\ Spec.metrics f mac cfg s
     = (fold_right String.append EmptyString
          (map (Spec.block f mac cfg s) (Spec.emitted cfg s))
        ++ Spec.uptime_block mac cfg s)%string
  /\ (In q (Spec.emitted cfg s)
      <-> Spec.capable cfg q = true /\ Spec.non_negative s q = true)
  /\ Spec.emitted cfg s
     = List.filter (fun q => Spec.capable cfg q && Spec.non_negative s q)
         [Spec.q_pm; Spec.q_nox; Spec.q_tvoc; Spec.q_rco2; Spec.q_atmp; Spec.q_rhum]
  /\ GenerateMetrics f mac
       {| deviceId := deviceId cfg; hasPM := false; hasCO2 := false; hasSHT := false;
          hasSGP41 := false; port := port cfg |} s
     = Spec.uptime_block mac cfg s.
Proof.
  split; [apply GenerateMetrics_shown |]. split; [reflexivity |].
  split; [apply GenerateMetrics_metrics |].
  split; [reflexivity |]. split; [| split; [reflexivity |]].
  - unfold Spec.emitted. rewrite filter_In, andb_true_iff.
    split; [intros [_ H]; exact H |].
    intros H. split; [| exact H]. destruct q; cbn; auto 10.
  - rewrite GenerateMetrics_metrics. reflexivity.
Qed.

(** * Further properties *)

(** ** The sensor timers *)

(** A timer that is due and moves on by its interval is late by exactly
    one interval less, in 32-bit arithmetic. *)
Lemma lag_shrinks (now previous interval : Z) :
  0 <= interval -> interval <= C.u32_sub now previous ->
  C.u32_sub now (C.u32_add previous interval) = C.u32_sub now previous - interval.
Proof.
  intros Hi Hdue. unfold C.u32_sub, C.u32_add, C.u32 in *.
  rewrite Zminus_mod_idemp_r.
  replace (now - (previous + interval)) with (now - previous - interval) by lia.
  rewrite <- Zminus_mod_idemp_l.
  pose proof (Z.mod_pos_bound (now - previous) (2 ^ 32) ltac:(lia)) as Hb.
  apply Z.mod_small. lia.
Qed.


(** X2: the updates of CO2, PM2.5 and temperature and humidity work on
    separate globals: whichever order [loop] called these three in, the
    sensor state after the pass would be the same.  [updateTVOC], which
    reads [tempc] and [hum] for the compensation it sends to the SGP41,
    writes none of the globals of the other three. *)
Theorem sensor_updates_commute (hw : Hardware) (now : Z) (sn : Sensors) :
  updatePm25 hw now (updateCo2 hw now sn) = updateCo2 hw now (updatePm25 hw now sn)
  /\ updateTempHum hw now (updateCo2 hw now sn) = updateCo2 hw now (updateTempHum hw now sn)
  /\ updateTempHum hw now (updatePm25 hw now sn)
     = updatePm25 hw now (updateTempHum hw now sn)
  /\ previousCo2 (updateTVOC hw now sn) = previousCo2 sn
  /\ Co2 (updateTVOC hw now sn) = Co2 sn
  /\ previousPm25 (updateTVOC hw now sn) = previousPm25 sn
  /\ pm25 (updateTVOC hw now sn) = pm25 sn
  /\ previousTempHum (updateTVOC hw now sn) = previousTempHum sn
  /\ tempc (updateTVOC hw now sn) = tempc sn
  /\ tempf (updateTVOC hw now sn) = tempf sn
  /\ hum (updateTVOC hw now sn) = hum sn.
Proof.
  unfold updateCo2, updatePm25, updateTempHum, updateTVOC.
  destruct sn as [cs pt tv nx pc co pp pm ph tc tf hu].
  cbn [conditioning_s previousTVOC TVOC NOX previousCo2 Co2 previousPm25 pm25
       previousTempHum tempc tempf hum].
  destruct (C.u32 tvocInterval <=? C.u32_sub now pt) eqn:Etvoc;
    destruct (cs >? 0) eqn:Econd;
    destruct (C.u32 co2Interval <=? C.u32_sub now pc) eqn:Eco2;
    destruct (C.u32 pm25Interval <=? C.u32_sub now pp) eqn:Epm;
    destruct (C.u32 tempHumInterval <=? C.u32_sub now ph) eqn:Eth;
    cbn [conditioning_s previousTVOC TVOC NOX previousCo2 Co2 previousPm25 pm25
         previousTempHum tempc tempf hum];
    rewrite ?Etvoc, ?Econd, ?Eco2, ?Epm, ?Eth;
    repeat split; reflexivity.
Qed.

(** ** The HTTP routes *)

Lemma HandleDisplayUpload_frame (req : Request) (s : State) :
  let s' := fst (HandleDisplayUpload req s) in
  currentMillis s' = currentMillis s /\ display_last_set s' = display_last_set s
  /\ oledInterval s' = oledInterval s /\ previousOled s' = previousOled s
  /\ sensors s' = sensors s /\ custom s' = custom s
  /\ displayActive s' = displayActive s /\ displayCycle s' = displayCycle s
  /\ status (snd (HandleDisplayUpload req s)) = 200.
Proof.
  unfold HandleDisplayUpload. destruct (C.for_upto _ _ _ _) as [d retval].
  destruct s; cbn. repeat split; reflexivity.
Qed.

Lemma HandleDisplaySet_frame (req : Request) (s : State) :
  let s' := fst (HandleDisplaySet req s) in
  currentMillis s' = currentMillis s /\ previousOled s' = previousOled s
  /\ sensors s' = sensors s /\ dimg s' = dimg s
  /\ displayActive s' = displayActive s /\ displayCycle s' = displayCycle s
  /\ status (snd (HandleDisplaySet req s)) = 200.
Proof.
  unfold HandleDisplaySet. destruct (hasArg req "oledInterval"); destruct s; cbn;
    repeat split; reflexivity.
Qed.

(** X5: a request is answered 200 when it is a GET of [/] or [/metrics]
    or a POST to [/setscreen2] or [/uploadscreen], and 404 otherwise; a
    request that gets a 404, whatever its method, path and fields, changes
    nothing, and neither does a GET of the metrics page. *)
Theorem handleClient_status (f : spec_float -> string) (mac : string) (cfg : Config)
    (req : Request) (s : State) :
  status (snd (handleClient f mac cfg req s)) = (if routed req then 200 else 404)
  /\ (if routed req then True else fst (handleClient f mac cfg req s) = s)
  /\ (if is_route HTTP_GET "/" req || is_route HTTP_GET "/metrics" req
      then handleClient f mac cfg req s
           = (s, {| status := 200; content_type := "text/plain";
                    body := GenerateMetrics f mac cfg s |})
      else True).
Proof.
  pose proof (HandleDisplayUpload_frame req s) as Hup.
  pose proof (HandleDisplaySet_frame req s) as Hset.
  cbv zeta in Hup, Hset.
  unfold handleClient, routed, is_route, HandleRoot, HandleNotFound.
  destruct (method req); cbn [orb];
    repeat match goal with
           | |- context [String.eqb (uri req) ?u] => destruct (String.eqb (uri req) u)
           end; cbn [orb fst snd status]; repeat split; tauto.
Qed.

(** What a request may write. *)
Lemma handleClient_frame (f : spec_float -> string) (mac : string) (cfg : Config)
    (req : Request) (s : State) :
  let s' := fst (handleClient f mac cfg req s) in
  sensors s' = sensors s /\ currentMillis s' = currentMillis s
  /\ previousOled s' = previousOled s
  /\ displayCycle s' = displayCycle s /\ displayActive s' = displayActive s
  /\ (if is_route HTTP_POST "/uploadscreen" req then True else dimg s' = dimg s)
  /\ (if is_route HTTP_POST "/setscreen2" req then True
      else custom s' = custom s /\ display_last_set s' = display_last_set s
           /\ oledInterval s' = oledInterval s).
Proof.
  pose proof (HandleDisplayUpload_frame req s) as Hup.
  pose proof (HandleDisplaySet_frame req s) as Hset.
  cbv zeta in Hup, Hset.
  unfold handleClient, is_route, HandleRoot, HandleNotFound. cbv zeta.
  destruct (method req);
    repeat match goal with
           | |- context [String.eqb (uri req) ?u] => destruct (String.eqb (uri req) u)
           end; cbn [fst snd]; repeat split; tauto.
Qed.

(** X6: no request can write what belongs to the sensors and to the
    display cycle: the sensor globals, the clock, the display timer, the
    phase and the slot cursor come out of [server.handleClient] as they went
    in.  The slot array changes only on a POST to [/uploadscreen]; the
    summary fields, their time stamp and the refresh interval only on a POST
    to [/setscreen2]. *)
Theorem handleClient_footprint (f : spec_float -> string) (mac : string) (cfg : Config)
    (req : Request) (s : State) :
  let s' := fst (handleClient f mac cfg req s) in
  sensors s' = sensors s /\ currentMillis s' = currentMillis s
  /\ previousOled s' = previousOled s
  /\ displayCycle s' = displayCycle s /\ displayActive s' = displayActive s
  /\ (if is_route HTTP_POST "/uploadscreen" req then True else dimg s' = dimg s)
  /\ (if is_route HTTP_POST "/setscreen2" req then True
      else custom s' = custom s /\ display_last_set s' = display_last_set s
           /\ oledInterval s' = oledInterval s).
Proof. exact (handleClient_frame f mac cfg req s). Qed.

Lemma fold_left_append (l : list (string * string)) :
  forall m : string,
  fold_left (fun message kv =>
               (message ++ (" " ++ fst kv ++ ": " ++ snd kv ++ LF))%string) l m
  = (m ++ fold_right String.append EmptyString (map arg_line l))%string.
Proof.
  induction l as [| kv l IH]; intros m; cbn [fold_left map fold_right].
  - symmetry. apply append_empty_r.
  - rewrite IH. apply append_assoc.
Qed.

(** X7: the 404 page names the path, the method, the number of form
    fields and then every field on a line of its own, in the order
    received; a method that is not GET is printed as POST. *)
Theorem HandleNotFound_page (req : Request) (s : State) :
  HandleNotFound req s
  = (s, {| status := 404; content_type := "text/html";
           body := ("File Not Found" ++ LF ++ LF ++ "URI: " ++ uri req ++ LF
                    ++ "Method: "
                    ++ (match method req with HTTP_GET => "GET" | _ => "POST" end) ++ LF
                    ++ "Arguments: " ++ String_of_int (Z.of_nat (length (args req))) ++ LF
                    ++ fold_right String.append EmptyString (map arg_line (args req)))%string
        |}).
Proof.
  unfold HandleNotFound. cbv zeta. rewrite fold_left_append.
  do 2 f_equal. normalize_append. reflexivity.
Qed.

(** ** The AQI scale *)

Lemma aqi_affine_in_range : forallb aqi_affine_ok (map Z.of_nat (seq 0 1001)) = true.
Proof. vm_compute. reflexivity. Qed.

(** X4: between 0 and 1000 the floating point conversion is an integer
    staircase of five straight pieces: [4 raw] up to 12, [2 raw + 26] up to
    35, [2 raw + 30] up to 55, [raw + 95] up to 150 and [raw + 50] from 151
    on; the last three bands share one piece, and the cap of 500 does not
    apply before [raw] passes 1000, where the result has reached 1050. *)
Theorem PM_TO_AQI_US_affine (raw : Z) :
  0 <= raw <= 1000 ->
  PM_TO_AQI_US raw
  = (if raw <=? 12 then 4 * raw
     else if raw <=? 35 then 2 * raw + 26
     else if raw <=? 55 then 2 * raw + 30
     else if raw <=? 150 then raw + 95
     else raw + 50)
  /\ 0 <= PM_TO_AQI_US raw <= 1050.
Proof.
  intros Hr.
  assert (H : PM_TO_AQI_US raw = aqi_affine raw).
  { apply Z.eqb_eq. apply (Z_range_forallb 1001 aqi_affine_ok aqi_affine_in_range). lia. }
  split; [exact H |]. rewrite H. unfold aqi_affine.
  repeat match goal with
         | |- context [?a <=? ?b] => destruct (Z.leb_spec a b)
         end; lia.
Qed.

(** An instance: the largest input below the cap. *)
Lemma PM_TO_AQI_US_affine_witness :
  0 <= 1000 <= 1000 /\ PM_TO_AQI_US 1000 = 1050.
Proof.
  assert (H : 0 <= 1000 <= 1000) by lia.
  exact (conj H (proj1 (PM_TO_AQI_US_affine 1000 H))).
Defined.

(** ** The sensors over a run *)

Lemma updateOLED_frame (s : State) :
  let s' := fst (updateOLED s) in
  currentMillis s' = currentMillis s /\ display_last_set s' = display_last_set s
  /\ oledInterval s' = oledInterval s /\ sensors s' = sensors s
  /\ custom s' = custom s /\ dimg s' = dimg s.
Proof.
  unfold updateOLED. destruct (oled_due s).
  - apply oled_fire_frame.
  - cbn [fst]. repeat split; reflexivity.
Qed.

(** The sensor globals after a pass: the four updates in the order of
    [loop], whatever the display and the request of the pass. *)
Lemma loop_sensors (f : spec_float -> string) (mac : string) (cfg : Config)
    (hw : Hardware) (client : option Request) (s : State) :
  sensors (fst (fst (loop f mac cfg hw client s)))
  = updateTempHum hw (C.u32 (millis hw))
      (updatePm25 hw (C.u32 (millis hw))
         (updateCo2 hw (C.u32 (millis hw))
            (updateTVOC hw (C.u32 (millis hw)) (sensors s)))).
Proof.
  unfold loop.
  set (s1 := set_sensors _ (set_sensors _ (set_sensors _ (set_sensors _ _)))).
  assert (H1 : sensors s1
               = updateTempHum hw (C.u32 (millis hw))
                   (updatePm25 hw (C.u32 (millis hw))
                      (updateCo2 hw (C.u32 (millis hw))
                         (updateTVOC hw (C.u32 (millis hw)) (sensors s)))))
    by (destruct s; reflexivity).
  pose proof (updateOLED_frame s1) as (_ & _ & _ & H2 & _).
  destruct (updateOLED s1) as [s2 drawn]. cbn [fst] in H2.
  destruct client as [req |]; cbn [fst].
  - pose proof (handleClient_frame f mac cfg req s2) as (H3 & _).
    destruct (handleClient f mac cfg req s2) as [s3 r]. cbn [fst] in *. congruence.
  - congruence.
Qed.

Lemma updateTVOC_conditioning (hw : Hardware) (now : Z) (sn : Sensors) :
  conditioning_ok sn -> conditioning_ok (updateTVOC hw now sn).
Proof.
  intros [Hrange Hzero]. unfold updateTVOC, conditioning_ok.
  destruct (_ <=? _); [| split; assumption].
  destruct (Z.gtb_spec (conditioning_s sn) 0) as [Hpos | Hnot];
    cbn [conditioning_s TVOC NOX].
  - unfold C.u16. rewrite Z.mod_small by lia. split; [lia |]. intros _. apply Hzero, Hpos.
  - split; [lia |]. intros Hpos. lia.
Qed.

Lemma other_updates_conditioning (hw : Hardware) (now : Z) (sn : Sensors) :
  conditioning_ok sn ->
  conditioning_ok (updateTempHum hw now (updatePm25 hw now (updateCo2 hw now sn))).
Proof.
  unfold conditioning_ok, updateTempHum, updatePm25, updateCo2.
  destruct sn as [cs pt tv nx pc co pp pm ph tc tf hu].
  cbn [conditioning_s previousTVOC TVOC NOX previousCo2 Co2 previousPm25 pm25
       previousTempHum tempc tempf hum].
  intros H.
  destruct (_ <=? C.u32_sub now pc);
    cbn [conditioning_s previousTVOC TVOC NOX previousCo2 Co2 previousPm25 pm25
         previousTempHum tempc tempf hum];
    destruct (_ <=? C.u32_sub now pp);
    cbn [conditioning_s previousTVOC TVOC NOX previousCo2 Co2 previousPm25 pm25
         previousTempHum tempc tempf hum];
    destruct (_ <=? C.u32_sub now ph);
    cbn [conditioning_s previousTVOC TVOC NOX previousCo2 Co2 previousPm25 pm25
         previousTempHum tempc tempf hum];
    exact H.
Qed.

Lemma run_conditioning (f : spec_float -> string) (mac : string) (cfg : Config)
    (passes : list (Hardware * option Request)) :
  forall s, conditioning_ok (sensors s) ->
  conditioning_ok (sensors (fst (run f mac cfg passes s))).
Proof.
  induction passes as [| [hw client] rest IH]; intros s Hok; cbn [run].
  - exact Hok.
  - pose proof (loop_sensors f mac cfg hw client s) as Hs.
    destruct (loop f mac cfg hw client s) as [[s1 drawn] r]. cbn [fst] in Hs.
    specialize (IH s1).
    destruct (run f mac cfg rest s1) as [s2 drawn']. cbn [fst] in *.
    apply IH. rewrite Hs.
    apply other_updates_conditioning, updateTVOC_conditioning, Hok.
Qed.

(** X3: the SGP41 is conditioned during the first ten TVOC ticks: over any
    run from boot the countdown [conditioning_s] stays between 0 and 10
    (the unsigned decrement never wraps), and as long as it has not reached
    0 the TVOC and NOx indices are still 0.  After that a measurement that
    reports an error leaves both indices at their last value. *)
Theorem conditioning_countdown (f : spec_float -> string) (mac : string) (cfg : Config)
    (passes : list (Hardware * option Request)) (hw : Hardware) (now : Z) (sn : Sensors) :
  let s := fst (run f mac cfg passes init_state) in
  0 <= conditioning_s (sensors s) <= 10
  /\ (0 < conditioning_s (sensors s) -> TVOC (sensors s) = 0 /\ NOX (sensors s) = 0)
  /\ conditioning_s (updateTVOC hw now sn) <= Z.max (conditioning_s sn) 0
  /\ (conditioning_s sn <= 0 -> measureRawSignals_error hw <> 0 ->
      TVOC (updateTVOC hw now sn) = TVOC sn /\ NOX (updateTVOC hw now sn) = NOX sn)
  /\ (conditioning_s sn <= 0 -> measureRawSignals_error hw = 0 ->
      sensor_due tvocInterval now (previousTVOC sn) = true ->
      TVOC (updateTVOC hw now sn) = voc_process hw
      /\ NOX (updateTVOC hw now sn) = nox_process hw).
Proof.
  intros s.
  assert (Hinit : conditioning_ok (sensors init_state)).
  { split; [cbn; lia | intros _; split; reflexivity]. }
  destruct (run_conditioning f mac cfg passes init_state Hinit) as [H1 H2].
  fold s in H1, H2.
  split; [exact H1 |]. split; [exact H2 |].
  unfold updateTVOC, sensor_due. split; [| split].
  - destruct (_ <=? _); [| lia].
    destruct (Z.gtb_spec (conditioning_s sn) 0) as [Hpos | Hnot];
      cbn [conditioning_s]; [| lia].
    unfold C.u16.
    pose proof (Z.mod_le (conditioning_s sn - 1) (2 ^ 16) ltac:(lia) ltac:(lia)). lia.
  - intros Hdone Herr.
    destruct (_ <=? _); [| split; reflexivity].
    destruct (Z.gtb_spec (conditioning_s sn) 0) as [Hpos | Hnot]; [lia |].
    cbn [TVOC NOX].
    destruct (Z.eqb_spec (measureRawSignals_error hw) 0) as [Hz | Hnz];
      [contradiction | split; reflexivity].
  - intros Hdone Herr Hdue. rewrite Hdue.
    destruct (Z.gtb_spec (conditioning_s sn) 0) as [Hpos | Hnot]; [lia |].
    cbn [TVOC NOX]. rewrite Herr. split; reflexivity.
Qed.

(** ** Uploaded bitmaps on the display *)

Lemma HandleDisplayUpload_outcome (req : Request) (s : State) (i : Z) :
  state_ok s = true -> 0 <= i < MAX_DISPLAY_IMG ->
  slot_outcome req (currentMillis s) i (dimg_at (dimg s) i)
    (dimg_at (dimg (fst (HandleDisplayUpload req s))) i)
    (fun line => reported line (snd (HandleDisplayUpload req s))).
Proof.
  intros Hok Hi.
  pose proof (upload_loop_outcome req (currentMillis s) (dimg s)
                ("Screen Update Results:" ++ LF)%string i (state_ok_slots s Hok) Hi) as Hloop.
  cbv zeta in Hloop. unfold HandleDisplayUpload.
  destruct (C.for_upto _ _ _ _) as [d retval]. cbn [fst snd] in *.
  replace (dimg (set_dimg d s)) with d by (destruct s; reflexivity).
  exact Hloop.
Qed.

Lemma u32_sub_u32_r (a b : Z) : C.u32_sub a (C.u32 b) = C.u32 (a - b).
Proof. unfold C.u32_sub, C.u32. apply Zminus_mod_idemp_r. Qed.

(** When a slot passes the test of the display loop after an upload. *)
Lemma upload_window (req : Request) (s : State) (i : Z) (payload : string) (later : Z) :
  state_ok s = true -> 0 <= i < MAX_DISPLAY_IMG ->
  find_arg ("d" ++ String_of_int i) (args req) = Some payload ->
  slot_shown later (dimg (fst (HandleDisplayUpload req s))) i
  = (strlen payload =? DISPLAY_IMG_BYTE_LEN)
    && (C.u32 (later - currentMillis s) <? customDisplayMaxAge).
Proof.
  intros Hok Hi Hfind.
  pose proof (HandleDisplayUpload_outcome req s i Hok Hi) as Hout.
  unfold slot_outcome in Hout. cbv zeta in Hout. rewrite Hfind in Hout.
  unfold slot_shown.
  destruct (Z.eqb_spec (strlen payload) 0) as [Hzero | Hnz].
  - destruct Hout as (-> & _). rewrite Hzero.
    change (0 =? DISPLAY_IMG_BYTE_LEN) with false. cbn [andb]. reflexivity.
  - destruct (strlen payload =? DISPLAY_IMG_BYTE_LEN).
    + destruct Hout as (_ & -> & _ & Hstamp & _).
      rewrite Hstamp, u32_sub_u32_r. cbn [andb]. reflexivity.
    + destruct Hout as (-> & _). cbn [andb]. reflexivity.
Qed.

(** X8: after an upload to slot [i], the slot passes the test of the
    display loop at a later instant [later] exactly when the payload had
    1024 bytes and fewer than 3600000 ms have gone by on the 32-bit clock:
    the signed [last_updated] does no harm past [2 ^ 31] ms, nor does the
    wrap of the clock, and an empty or ill-sized payload hides the slot at
    every instant. *)
Theorem uploaded_slot_window (req : Request) (s : State) (i : Z) (payload : string)
    (later : Z) :
  state_ok s = true -> 0 <= i < MAX_DISPLAY_IMG ->
  find_arg ("d" ++ String_of_int i) (args req) = Some payload ->
  slot_shown later (dimg (fst (HandleDisplayUpload req s))) i
  = (strlen payload =? DISPLAY_IMG_BYTE_LEN)
    && (C.u32 (later - currentMillis s) <? customDisplayMaxAge).
Proof. exact (upload_window req s i payload later). Qed.

(** An instance: the bitmap of 1024 bytes sent to slot 3 after boot is
    shown one second later. *)
Lemma uploaded_slot_window_witness :
  state_ok init_state = true /\ 0 <= 3 < MAX_DISPLAY_IMG
  /\ find_arg ("d" ++ String_of_int 3) (args upload_3_4_5) = Some bitmap_1024
  /\ slot_shown 1000 (dimg (fst (HandleDisplayUpload upload_3_4_5 init_state))) 3 = true.
Proof.
  assert (Hok : state_ok init_state = true) by reflexivity.
  assert (Hi : 0 <= 3 < MAX_DISPLAY_IMG) by (unfold MAX_DISPLAY_IMG; lia).
  assert (Hfind : find_arg ("d" ++ String_of_int 3) (args upload_3_4_5) = Some bitmap_1024)
    by (vm_compute; reflexivity).
  refine (conj Hok (conj Hi (conj Hfind _))).
  pose proof (uploaded_slot_window upload_3_4_5 init_state 3 bitmap_1024 1000 Hok Hi Hfind)
    as H.
  vm_compute in H. vm_compute. exact H.
Defined.

Lemma for_upto_fixed {S : Type} (body : Z -> S -> S) (s : S) :
  forall n i,
  (forall j, i <= j < i + Z.of_nat n -> body j s = s) ->
  C.for_upto n i body s = s.
Proof.
  induction n as [| n IH]; intros i Hfix; cbn [C.for_upto]; [reflexivity |].
  rewrite Hfix by lia. apply IH. intros j Hj. apply Hfix. lia.
Qed.

(** X11: an upload request that carries none of the fields [d0] .. [d19]
    (only other names, or nothing at all) leaves the whole state as it was
    and is answered 200 with the bare heading; and whatever a request
    carries, the answer is a 200 that starts with that heading. *)
Theorem upload_without_fields (req : Request) (s : State) :
  ((forall i, 0 <= i < MAX_DISPLAY_IMG ->
      find_arg ("d" ++ String_of_int i) (args req) = None) ->
   HandleDisplayUpload req s
   = (s, {| status := 200; content_type := "text/html";
            body := ("Screen Update Results:" ++ LF)%string |}))
  /\ status (snd (HandleDisplayUpload req s)) = 200
  /\ exists report,
       body (snd (HandleDisplayUpload req s))
       = ("Screen Update Results:" ++ LF ++ report)%string.
Proof.
  split; [| split].
  - intros Hnone. unfold HandleDisplayUpload.
    rewrite for_upto_fixed.
    + destruct s; reflexivity.
    + intros j Hj. unfold upload_slot. rewrite hasArg_find, Hnone; [reflexivity |].
      unfold MAX_DISPLAY_IMG in *. lia.
  - apply HandleDisplayUpload_frame.
  - unfold HandleDisplayUpload.
    destruct (upload_loop_appends req (currentMillis s) (Z.to_nat MAX_DISPLAY_IMG) 0
                (dimg s, ("Screen Update Results:" ++ LF)%string)) as [report Hrep].
    destruct (C.for_upto _ _ _ _) as [d retval]. cbn [fst snd body] in *.
    exists report. rewrite Hrep. apply append_assoc.
Qed.

(** ** What a tick draws *)

Lemma no_slot_shown_intro (now : Z) (d : list display_image) :
  (forall i, 0 <= i < MAX_DISPLAY_IMG -> slot_shown now d i = false) ->
  no_slot_shown now d = true.
Proof.
  intros H. unfold no_slot_shown. apply forallb_forall. intros i Hi.
  apply in_map_iff in Hi as (n & <- & Hn). apply in_seq in Hn.
  rewrite H; [reflexivity |]. unfold MAX_DISPLAY_IMG in *. lia.
Qed.

(** The search finds a slot whenever one can be shown. *)
Lemma scan_slots_finds (now : Z) (d : list display_image) (cursor : Z) :
  0 <= cursor < MAX_DISPLAY_IMG ->
  no_slot_shown now d = false ->
  snd (scan_slots (Z.to_nat MAX_DISPLAY_IMG) now d cursor) = true.
Proof.
  intros Hc Hsome.
  destruct (scan_slots _ now d cursor) as [c' found] eqn:Hscan. cbn [snd].
  destruct found; [reflexivity |].
  destruct (scan_slots_none_full now d cursor c' Hc Hscan) as [_ Hall].
  rewrite (no_slot_shown_intro now d Hall) in Hsome. discriminate.
Qed.

(** X9: a fired tick draws a custom bitmap exactly when its new phase is 1
    or 3 and some slot is active and young enough; the bitmap is then the
    one under the cursor, inside the array and itself active and young
    enough, and the phase stays.  In every other case the tick draws the
    built-in screen or the remote summary and the cursor is where it was. *)
Theorem custom_screen_when_shown (s : State) :
  state_ok s = true -> oled_due s = true ->
  let new := (displayCycle s + 1) mod 4 in
  let r := updateOLED s in
  if ((new =? 1) || (new =? 3)) && negb (no_slot_shown (currentMillis s) (dimg s))
  then exists c,
         snd r = [drawCustomScreen c] /\ 0 <= c < MAX_DISPLAY_IMG
         /\ slot_shown (currentMillis s) (dimg s) c = true
         /\ displayCycle (fst r) = new /\ displayActive (fst r) = c
  else (snd r = [drawScreen1] \/ snd r = [drawScreen2])
       /\ displayActive (fst r) = displayActive s.
Proof.
  intros Hok Hdue new r. subst r.
  pose proof (state_ok_inv s Hok) as (Hcur & Hcyc & _).
  pose proof (oled_fire_observe s Hcyc) as Hobs. cbv zeta in Hobs. fold new in Hobs.
  unfold updateOLED. rewrite Hdue. unfold observe in Hobs.
  destruct ((new =? 1) || (new =? 3)) eqn:Hodd; cbn [andb].
  - destruct (no_slot_shown (currentMillis s) (dimg s)) eqn:Hnone; cbn [negb].
    + rewrite (scan_slots_nothing _ _ _ Hcur (no_slot_shown_spec _ _ Hnone)) in Hobs.
      cbn [fst snd] in Hobs.
      destruct ((new =? 1) && summary_shown s); injection Hobs as _ -> ->; auto.
    + pose proof (scan_slots_finds _ _ _ Hcur Hnone) as Hfound.
      pose proof (scan_slots_range (Z.to_nat MAX_DISPLAY_IMG) (currentMillis s) (dimg s)
                    (displayActive s) Hcur) as Hrange.
      destruct (scan_slots _ _ _ _) as [c found] eqn:Hscan. cbn [fst snd] in *. subst found.
      injection Hobs as Hphase Hdrawn Hcursor. exists c.
      repeat split; try assumption; try lia.
      apply (scan_slots_found _ _ _ _ _ (proj1 Hcur) Hscan).
  - destruct ((new =? 2) && summary_shown s); injection Hobs as _ -> ->; auto.
Qed.

(** An instance: the first tick after boot, which has no bitmap to show. *)
Lemma custom_screen_when_shown_witness :
  state_ok (set_currentMillis 5000 init_state) = true
  /\ oled_due (set_currentMillis 5000 init_state) = true
  /\ (snd (updateOLED (set_currentMillis 5000 init_state)) = [drawScreen1]
      \/ snd (updateOLED (set_currentMillis 5000 init_state)) = [drawScreen2])
  /\ displayActive (fst (updateOLED (set_currentMillis 5000 init_state)))
     = displayActive (set_currentMillis 5000 init_state).
Proof.
  assert (Hok : state_ok (set_currentMillis 5000 init_state) = true) by reflexivity.
  assert (Hdue : oled_due (set_currentMillis 5000 init_state) = true) by reflexivity.
  refine (conj Hok (conj Hdue _)).
  exact (custom_screen_when_shown _ Hok Hdue).
Defined.

(** X12: the display timer moves on by exactly [oledInterval] on a fired
    tick, never to the present, so after a stall the ticks follow one
    another pass by pass until the timer has caught up; a pass that is not
    due draws nothing and changes nothing; and with the interval at 0 every
    pass is due and redraws the display. *)
Theorem oled_cadence (s : State) :
  state_ok s = true -> 0 <= oledInterval s ->
  (if oled_due s
   then C.u32_sub (currentMillis s) (previousOled (fst (updateOLED s)))
        = C.u32_sub (currentMillis s) (previousOled s) - oledInterval s
        /\ length (snd (updateOLED s)) = 1%nat
   else updateOLED s = (s, []))
  /\ (oledInterval s = 0 -> oled_due s = true).
Proof.
  intros Hok Hint. split.
  - destruct (oled_due s) eqn:Hdue.
    + split.
      * assert (Hprev : previousOled (fst (updateOLED s))
                        = C.u32_add (previousOled s) (oledInterval s)).
        { unfold updateOLED. rewrite Hdue.
          unfold oled_fire, oled_custom_phase, oled_summary2_phase, oled_summary1_phase.
          destruct s as [now last_set interval prev sn cu d cursor cycle]. oled_simpl.
          repeat match goal with
                 | |- context [if ?b then _ else _] => destruct b; oled_simpl
                 | |- context [scan_slots ?n ?t ?l ?c] => destruct (scan_slots n t l c)
                 end; reflexivity. }
        rewrite Hprev. apply lag_shrinks; [exact Hint |].
        unfold oled_due in Hdue. apply Z.leb_le, Hdue.
      * destruct (updateOLED_draws_once s Hok Hdue) as [a ->]. reflexivity.
    + unfold updateOLED. rewrite Hdue. reflexivity.
  - intros Hzero. unfold oled_due. rewrite Hzero. apply Z.leb_le.
    unfold C.u32_sub, C.u32. apply Z.mod_pos_bound. lia.
Qed.

(** An instance: the first tick after boot catches up by 5000 ms. *)
Lemma oled_cadence_witness :
  state_ok (set_currentMillis 12000 init_state) = true
  /\ 0 <= oledInterval (set_currentMillis 12000 init_state)
  /\ C.u32_sub (currentMillis (set_currentMillis 12000 init_state))
       (previousOled (fst (updateOLED (set_currentMillis 12000 init_state)))) = 7000.
Proof.
  assert (Hok : state_ok (set_currentMillis 12000 init_state) = true) by reflexivity.
  assert (Hint : 0 <= oledInterval (set_currentMillis 12000 init_state))
    by (vm_compute; discriminate).
  refine (conj Hok (conj Hint _)).
  exact (proj1 (proj1 (oled_cadence _ Hok Hint))).
Defined.

(** ** The display over a run *)

Lemma phase_shows_ext (s s' : State) (a : Draw) :
  displayCycle s' = displayCycle s -> displayActive s' = displayActive s ->
  phase_shows s a -> phase_shows s' a.
Proof. intros Hc Ha. destruct a; cbn; rewrite Hc, ?Ha; exact (fun H => H). Qed.

Lemma panel_ok_ext (s s' : State) (panel : option Draw) :
  displayCycle s' = displayCycle s -> displayActive s' = displayActive s ->
  panel_ok s panel -> panel_ok s' panel.
Proof.
  intros Hc Ha. destruct panel as [a |]; cbn.
  - apply phase_shows_ext; assumption.
  - rewrite Hc. exact (fun H => H).
Qed.

Lemma updateOLED_panel (s : State) (panel : option Draw) :
  state_ok s = true -> panel_ok s panel ->
  panel_ok (fst (updateOLED s)) (on_panel panel (snd (updateOLED s))).
Proof.
  intros Hok Hpanel. pose proof (state_ok_inv s Hok) as (Hcur & Hcyc & _).
  unfold updateOLED. destruct (oled_due s); [| exact Hpanel].
  destruct (oled_fire_draws_once s Hcyc (proj1 Hcur)) as (a & Hdrawn & Ha).
  rewrite Hdrawn. cbn [on_panel last panel_ok].
  destruct a; cbn [phase_shows]; [exact Ha | exact Ha |].
  destruct Ha as (Hphase & Hidx & _). split; assumption.
Qed.

Lemma loop_panel (f : spec_float -> string) (mac : string) (cfg : Config)
    (hw : Hardware) (client : option Request) (s : State) (panel : option Draw) :
  state_ok s = true -> panel_ok s panel ->
  panel_ok (fst (fst (loop f mac cfg hw client s)))
    (on_panel panel (snd (fst (loop f mac cfg hw client s)))).
Proof.
  intros Hok Hpanel. unfold loop.
  set (s1 := set_sensors _ (set_sensors _ (set_sensors _ (set_sensors _ _)))).
  assert (H1 : state_ok s1 = true) by (destruct s; exact Hok).
  assert (Hp1 : panel_ok s1 panel).
  { apply (panel_ok_ext s); [destruct s; reflexivity .. | exact Hpanel]. }
  pose proof (updateOLED_panel s1 panel H1 Hp1) as Hp2.
  destruct (updateOLED s1) as [s2 drawn]. cbn [fst snd] in *.
  destruct client as [req |]; cbn [fst snd]; [| exact Hp2].
  pose proof (handleClient_frame f mac cfg req s2) as (_ & _ & _ & Hc & Ha & _).
  destruct (handleClient f mac cfg req s2) as [s3 r]. cbn [fst snd] in *.
  apply (panel_ok_ext s2); assumption.
Qed.

Lemma on_panel_app (panel : option Draw) (d1 d2 : list Draw) :
  on_panel panel (d1 ++ d2) = on_panel (on_panel panel d1) d2.
Proof.
  unfold on_panel. rewrite last_app. destruct (last d2); reflexivity.
Qed.

Lemma run_panel (f : spec_float -> string) (mac : string) (cfg : Config)
    (passes : list (Hardware * option Request)) :
  forall s panel, state_ok s = true -> panel_ok s panel ->
  panel_ok (fst (run f mac cfg passes s)) (on_panel panel (snd (run f mac cfg passes s))).
Proof.
  induction passes as [| [hw client] rest IH]; intros s panel Hok Hpanel; cbn [run].
  - exact Hpanel.
  - pose proof (loop_panel f mac cfg hw client s panel Hok Hpanel) as H1.
    destruct (loop_ok f mac cfg hw client s Hok) as [Hok1 _].
    destruct (loop f mac cfg hw client s) as [[s1 drawn] r]. cbn [fst snd] in *.
    specialize (IH s1 _ Hok1 H1).
    destruct (run f mac cfg rest s1) as [s2 drawn']. cbn [fst snd] in *.
    rewrite on_panel_app. exact IH.
Qed.

(** X10: over any run from boot the phase tells which screen is on the
    panel: after the last redraw of the run the phase is 0 when that was the
    built-in screen, 2 when it was the remote summary, and 1 or 3 with the
    cursor on the slot drawn when it was a custom bitmap; as long as nothing
    has been redrawn the phase is 0.  Requests and passes that are not due
    never break the agreement. *)
Theorem phase_tells_screen (f : spec_float -> string) (mac : string) (cfg : Config)
    (passes : list (Hardware * option Request)) :
  let s := fst (run f mac cfg passes init_state) in
  match last (snd (run f mac cfg passes init_state)) with
  | None => displayCycle s = 0
  | Some drawScreen1 => displayCycle s = 0
  | Some drawScreen2 => displayCycle s = 2
  | Some (drawCustomScreen index) =>
      (displayCycle s = 1 \/ displayCycle s = 3) /\ index = displayActive s
  end.
Proof.
  intros s.
  pose proof (run_panel f mac cfg passes init_state None eq_refl eq_refl) as H.
  fold s in H. unfold on_panel in H.
  destruct (last _) as [[| | index] |]; exact H.
Qed.

Lemma all_inactive_hidden (now : Z) (d : list display_image) (i : Z) :
  all_inactive d = true -> slot_shown now d i = false.
Proof.
  intros Hall. unfold slot_shown, dimg_at.
  destruct (d !! Z.to_nat i) as [im |] eqn:E; cbn [default from_option id].
  - unfold all_inactive in Hall. rewrite forallb_forall in Hall.
    assert (Him : negb (active im) = true).
    { apply Hall, list_elem_of_In, list_elem_of_lookup. eauto. }
    apply negb_true_iff in Him. rewrite Him. reflexivity.
  - reflexivity.
Qed.

(** What a tick may draw from a state without an active slot, and from
    one where no summary was posted. *)
Lemma updateOLED_not_custom (s : State) :
  state_ok s = true -> all_inactive (dimg s) = true ->
  Forall not_custom (snd (updateOLED s)).
Proof.
  intros Hok Hall. pose proof (state_ok_inv s Hok) as (Hcur & Hcyc & _).
  unfold updateOLED. destruct (oled_due s); [| constructor].
  destruct (oled_fire_draws_once s Hcyc (proj1 Hcur)) as (a & -> & Ha).
  constructor; [| constructor]. destruct a; cbn; try exact I.
  destruct Ha as (_ & _ & Hshown).
  rewrite (all_inactive_hidden _ _ _ Hall) in Hshown. discriminate.
Qed.

Lemma updateOLED_not_summary2 (s : State) :
  state_ok s = true -> display_last_set s = 0 ->
  Forall not_summary2 (snd (updateOLED s)).
Proof.
  intros Hok Hset. pose proof (state_ok_inv s Hok) as (Hcur & Hcyc & _).
  pose proof (oled_fire_observe s Hcyc) as Hobs. cbv zeta in Hobs.
  rewrite (summary_shown_never_set s Hset), !andb_false_r in Hobs.
  unfold updateOLED. destruct (oled_due s); [| constructor].
  unfold observe in Hobs.
  repeat match type of Hobs with
         | context [if ?b then _ else _] => destruct b
         end; injection Hobs as _ -> _; repeat constructor.
Qed.

(** One pass: what it draws is what [updateOLED] draws from a state with
    the same slots and the same time stamp of the summary, and both are
    kept unless the pass carries the POST that writes them. *)
Lemma loop_draws (f : spec_float -> string) (mac : string) (cfg : Config)
    (hw : Hardware) (client : option Request) (s : State) :
  exists s1,
    state_ok s1 = state_ok s /\ dimg s1 = dimg s
    /\ display_last_set s1 = display_last_set s
    /\ snd (fst (loop f mac cfg hw client s)) = snd (updateOLED s1)
    /\ (posts_to "/uploadscreen" (hw, client) = false ->
        dimg (fst (fst (loop f mac cfg hw client s))) = dimg s)
    /\ (posts_to "/setscreen2" (hw, client) = false ->
        display_last_set (fst (fst (loop f mac cfg hw client s))) = display_last_set s).
Proof.
  unfold loop, posts_to. cbn [snd].
  set (s1 := set_sensors _ (set_sensors _ (set_sensors _ (set_sensors _ _)))).
  exists s1.
  split; [destruct s; reflexivity |]. split; [destruct s; reflexivity |].
  assert (Hset1 : display_last_set s1 = display_last_set s) by (destruct s; reflexivity).
  assert (Hd1 : dimg s1 = dimg s) by (destruct s; reflexivity).
  split; [exact Hset1 |].
  pose proof (updateOLED_frame s1) as (_ & Hset2 & _ & _ & _ & Hd2).
  destruct (updateOLED s1) as [s2 drawn]. cbn [fst snd] in *.
  destruct client as [req |]; cbn [fst snd].
  - pose proof (handleClient_frame f mac cfg req s2) as (_ & _ & _ & _ & _ & Hd3 & Hset3).
    destruct (handleClient f mac cfg req s2) as [s3 r]. cbn [fst snd] in *.
    split; [reflexivity |]. split.
    + intros Hno. rewrite Hno in Hd3. congruence.
    + intros Hno. rewrite Hno in Hset3. destruct Hset3 as (_ & Hset3 & _). congruence.
  - split; [reflexivity |]. split; intros _; congruence.
Qed.

Lemma run_without_posts (f : spec_float -> string) (mac : string) (cfg : Config)
    (passes : list (Hardware * option Request)) :
  forall s, state_ok s = true ->
  (forallb (fun p => negb (posts_to "/uploadscreen" p)) passes = true ->
   all_inactive (dimg s) = true ->
   Forall not_custom (snd (run f mac cfg passes s)))
  /\ (forallb (fun p => negb (posts_to "/setscreen2" p)) passes = true ->
      display_last_set s = 0 ->
      Forall not_summary2 (snd (run f mac cfg passes s))).
Proof.
  induction passes as [| [hw client] rest IH]; intros s Hok; cbn [run forallb].
  - split; intros; constructor.
  - destruct (loop_ok f mac cfg hw client s Hok) as [Hok1 _].
    destruct (loop_draws f mac cfg hw client s)
      as (s1 & Hok' & Hd & Hset & Hdrawn & Hkeepd & Hkeepset).
    rewrite Hok in Hok'.
    destruct (loop f mac cfg hw client s) as [[s2 drawn] r]. cbn [fst snd] in *.
    destruct (IH s2 Hok1) as [IHc IHs].
    destruct (run f mac cfg rest s2) as [s3 drawn']. cbn [fst snd] in *.
    split.
    + intros Hposts Hall. apply andb_true_iff in Hposts as [Hthis Hrest].
      apply negb_true_iff in Hthis. apply Forall_app. split.
      * rewrite Hdrawn. apply updateOLED_not_custom; [exact Hok' | rewrite Hd; exact Hall].
      * apply IHc; [exact Hrest |]. rewrite (Hkeepd Hthis). exact Hall.
    + intros Hposts Hnever. apply andb_true_iff in Hposts as [Hthis Hrest].
      apply negb_true_iff in Hthis. apply Forall_app. split.
      * rewrite Hdrawn. apply updateOLED_not_summary2; [exact Hok' | congruence].
      * apply IHs; [exact Hrest |]. rewrite (Hkeepset Hthis). exact Hnever.
Qed.

(** X13: what the OLED shows needs a request first: over any run from
    boot without a POST to [/uploadscreen] no custom bitmap is ever drawn,
    and over any run without a POST to [/setscreen2] the remote summary is
    never drawn; with neither, every redraw is the built-in screen. *)
Theorem nothing_drawn_unasked (f : spec_float -> string) (mac : string) (cfg : Config)
    (passes : list (Hardware * option Request)) :
  let drawn := snd (run f mac cfg passes init_state) in
  (forallb (fun p => negb (posts_to "/uploadscreen" p)) passes = true ->
   forall index, ~ In (drawCustomScreen index) drawn)
  /\ (forallb (fun p => negb (posts_to "/setscreen2" p)) passes = true ->
      ~ In drawScreen2 drawn)
  /\ (forallb (fun p => negb (posts_to "/uploadscreen" p)) passes = true ->
      forallb (fun p => negb (posts_to "/setscreen2" p)) passes = true ->
      forall a, In a drawn -> a = drawScreen1).
Proof.
  intros drawn.
  destruct (run_without_posts f mac cfg passes init_state eq_refl) as [Hc Hs].
  fold drawn in Hc, Hs.
  assert (Hcustom : forallb (fun p => negb (posts_to "/uploadscreen" p)) passes = true ->
                    forall index, ~ In (drawCustomScreen index) drawn).
  { intros Hposts index Hin. specialize (Hc Hposts eq_refl).
    rewrite Forall_forall in Hc. apply (Hc (drawCustomScreen index)).
    apply list_elem_of_In, Hin. }
  assert (Hsummary : forallb (fun p => negb (posts_to "/setscreen2" p)) passes = true ->
                     ~ In drawScreen2 drawn).
  { intros Hposts Hin. specialize (Hs Hposts eq_refl).
    rewrite Forall_forall in Hs. apply (Hs drawScreen2).
    apply list_elem_of_In, Hin. }
  split; [exact Hcustom |]. split; [exact Hsummary |].
  intros Hp1 Hp2 a Hin. destruct a as [| | index]; [reflexivity | |].
  - destruct (Hsummary Hp2 Hin).
  - destruct (Hcustom Hp1 index Hin).
Qed.
